(** * Atomic chess: a shallow embedding of GamePiece.py and GameBoard.py

    The Python classes are rendered as Rocq data and functions:
    - the piece classes become one inductive type, the pawn carrying its
      [_is_first_turn] attribute;
    - the board is the list of lists of the source, indexed the way Python
      indexes lists (negative indices wrap around, anything else out of
      range raises [IndexError]);
    - methods that only read are functions into [Res] (a value or a raised
      exception); methods that write to the game object live in the
      state-and-exception monad [M]. *)

From Stdlib Require Import ZArith String Ascii Bool List Lia.
From stdpp Require Import base list gmap.

Local Open Scope Z_scope.

(** ** Python values used by the program *)

Inductive Exn := IndexError | ValueError | AttributeError.

Inductive Res (A : Type) :=
| Ret (a : A)
| Raise (e : Exn).
Arguments Ret {A} a.
Arguments Raise {A} e.

Definition res_bind {A B} (r : Res A) (k : A -> Res B) : Res B :=
  match r with
  | Ret a => k a
  | Raise e => Raise e
  end.

Notation "x <~ r ;;; k" := (res_bind r (fun x => k))
  (at level 100, r at next level, right associativity).

(** [range(a, b)] *)
Definition range (a b : Z) : list Z :=
  map (fun i => a + Z.of_nat i) (seq 0 (Z.to_nat (b - a))).

(** [l[i]] on a Python list. *)
Definition getitem {A} (l : list A) (i : Z) : Res A :=
  let n := Z.of_nat (length l) in
  let j := if i <? 0 then i + n else i in
  if (j <? 0) || (n <=? j) then Raise IndexError
  else match l !! Z.to_nat j with
       | Some x => Ret x
       | None => Raise IndexError
       end.

(** [l[i] = x] on a Python list. *)
Definition setitem {A} (l : list A) (i : Z) (x : A) : Res (list A) :=
  let n := Z.of_nat (length l) in
  let j := if i <? 0 then i + n else i in
  if (j <? 0) || (n <=? j) then Raise IndexError
  else Ret (<[Z.to_nat j := x]> l).

(** ** GamePiece.py *)

Inductive Color := WHITE | BLACK.

Inductive Piece :=
| King (color : Color)
| Queen (color : Color)
| Rook (color : Color)
| Bishop (color : Color)
| Knight (color : Color)
| Pawn (color : Color) (is_first_turn : bool).

Definition get_color (p : Piece) : Color :=
  match p with
  | King c | Queen c | Rook c | Bishop c | Knight c | Pawn c _ => c
  end.

Definition color_eqb (a b : Color) : bool :=
  match a, b with
  | WHITE, WHITE | BLACK, BLACK => true
  | _, _ => false
  end.

Definition is_King (p : Piece) : bool := match p with King _ => true | _ => false end.
Definition is_Queen (p : Piece) : bool := match p with Queen _ => true | _ => false end.
Definition is_Rook (p : Piece) : bool := match p with Rook _ => true | _ => false end.
Definition is_Bishop (p : Piece) : bool := match p with Bishop _ => true | _ => false end.
Definition is_Knight (p : Piece) : bool := match p with Knight _ => true | _ => false end.
Definition is_Pawn (p : Piece) : bool := match p with Pawn _ _ => true | _ => false end.

(** [type(x) is Pawn] for a board cell [x], which may be [None]. *)
Definition cell_is_Pawn (x : option Piece) : bool :=
  match x with Some p => is_Pawn p | None => false end.

Abbreviation Square := (Z * Z)%type.

Definition sq_eqb (a b : Square) : bool := (a.1 =? b.1) && (a.2 =? b.2).

(** The strings returned by [move_direction]; [NoDirection] is its [False]. *)
Inductive Direction :=
| w_FORWARD | b_FORWARD | STRAIGHT
| w_DIAGONAL | b_DIAGONAL | DIAGONAL
| NoDirection.

Definition direction_eqb (a b : Direction) : bool :=
  match a, b with
  | w_FORWARD, w_FORWARD | b_FORWARD, b_FORWARD | STRAIGHT, STRAIGHT
  | w_DIAGONAL, w_DIAGONAL | b_DIAGONAL, b_DIAGONAL | DIAGONAL, DIAGONAL
  | NoDirection, NoDirection => true
  | _, _ => false
  end.

(** What the validity methods return: [True], [False], the string
    ["PAWN_CAPTURE"], or [None] when a method falls off its end. In a
    condition [True] and ["PAWN_CAPTURE"] are truthy, [False] and [None]
    are not. *)
Inductive Verdict := VTrue | VFalse | VNone | PAWN_CAPTURE.

Definition of_bool (b : bool) : Verdict := if b then VTrue else VFalse.

(** What [is_capture] returns. *)
Inductive Capture := WRONG_COLOR | KING | CBool (b : bool).

(** [Knight.is_valid_move] *)
Definition Knight_is_valid_move (sq_from sq_to : Square) : bool :=
  let row_distance := Z.abs (sq_from.1 - sq_to.1) in
  let col_distance := Z.abs (sq_from.2 - sq_to.2) in
  if (row_distance =? 2) && (col_distance =? 1) then true
  else if (row_distance =? 1) && (col_distance =? 2) then true
  else false.

(** ** GameBoard.py: the game object *)

Abbreviation Board := (list (list (option Piece))).

Inductive GameState := UNFINISHED | WHITE_WON | BLACK_WON.

Definition game_state_eqb (a b : GameState) : bool :=
  match a, b with
  | UNFINISHED, UNFINISHED | WHITE_WON, WHITE_WON | BLACK_WON, BLACK_WON => true
  | _, _ => false
  end.

(** The dictionary [_king_status], which always has exactly the two keys
    ["WHITE"] and ["BLACK"]. *)
Record KingStatus := { ks_WHITE : bool; ks_BLACK : bool }.

Record Game := {
  board : Board;
  game_state : GameState;
  player_turn : Color;
  king_status : KingStatus
}.

Definition with_board (g : Game) (b : Board) : Game :=
  {| board := b; game_state := game_state g;
     player_turn := player_turn g; king_status := king_status g |}.

Definition with_game_state (g : Game) (s : GameState) : Game :=
  {| board := board g; game_state := s;
     player_turn := player_turn g; king_status := king_status g |}.

Definition with_player_turn (g : Game) (c : Color) : Game :=
  {| board := board g; game_state := game_state g;
     player_turn := c; king_status := king_status g |}.

Definition with_king_status (g : Game) (k : KingStatus) : Game :=
  {| board := board g; game_state := game_state g;
     player_turn := player_turn g; king_status := k |}.

(** [initialize_board] *)
Definition back_rank (c : Color) : list (option Piece) :=
  [Some (Rook c); Some (Knight c); Some (Bishop c); Some (Queen c);
   Some (King c); Some (Bishop c); Some (Knight c); Some (Rook c)].

Definition initialize_board : Board :=
  [ back_rank BLACK;
    replicate 8 (Some (Pawn BLACK true));
    replicate 8 None; replicate 8 None; replicate 8 None; replicate 8 None;
    replicate 8 (Some (Pawn WHITE true));
    back_rank WHITE ].

(** [GameBoard.__init__] *)
Definition new_game : Game :=
  {| board := initialize_board;
     game_state := UNFINISHED;
     player_turn := WHITE;
     king_status := {| ks_WHITE := true; ks_BLACK := true |} |}.

Definition get_game_state (g : Game) : GameState := game_state g.

(** [self._board[sq[0]][sq[1]]] *)
Definition getitem2 (b : Board) (sq : Square) : Res (option Piece) :=
  row <~ getitem b sq.1 ;;;
  getitem row sq.2.

(** [self._board[sq[0]][sq[1]] = x] *)
Definition setitem2 (b : Board) (sq : Square) (x : option Piece) : Res Board :=
  row <~ getitem b sq.1 ;;;
  row' <~ setitem row sq.2 x ;;;
  setitem b sq.1 row'.

(** ** Strings

    A Python [str] is modelled by a Rocq [string] whose characters are the
    code points below 256; [isalpha], [isnumeric], [lower] and [int] are
    Python's on that range. *)

Definition isalpha (c : ascii) : bool :=
  let n := Z.of_N (N_of_ascii c) in
  ((65 <=? n) && (n <=? 90)) || ((97 <=? n) && (n <=? 122))
  || (n =? 170) || (n =? 181) || (n =? 186)
  || ((192 <=? n) && (n <=? 214)) || ((216 <=? n) && (n <=? 246))
  || (248 <=? n).

Definition isnumeric (c : ascii) : bool :=
  let n := Z.of_N (N_of_ascii c) in
  ((48 <=? n) && (n <=? 57))
  || (n =? 178) || (n =? 179) || (n =? 185)
  || ((188 <=? n) && (n <=? 190)).

(** [int(c)] for a one-character string: only decimal digits convert. *)
Definition int (c : ascii) : Res Z :=
  let n := Z.of_N (N_of_ascii c) in
  if (48 <=? n) && (n <=? 57) then Ret (n - 48) else Raise ValueError.

(** [c.lower()], as a code point. *)
Definition lower (c : ascii) : Z :=
  let n := Z.of_N (N_of_ascii c) in
  if ((65 <=? n) && (n <=? 90))
     || ((192 <=? n) && (n <=? 222) && negb (n =? 215))
  then n + 32 else n.

(** The dictionary built by the loop of [notation_to_board_pos], keyed by
    the code point of the letter. *)
Definition letter_to_num : gmap Z Z :=
  (fold_left
     (fun (acc : gmap Z Z * Z) (num : Z) =>
        let '(d, letter_code) := acc in
        (<[letter_code := num]> d, letter_code + 1))
     (range 0 8) (∅, 97)).1.

Definition notation_to_board_pos (chess_notation : string) : Res Square :=
  let len := Z.of_nat (String.length chess_notation) in
  if (len <? 2) || (len >? 2) then Ret (-1, -1)
  else match chess_notation with
       | String c0 (String c1 _) =>
           if negb (isalpha c0) then Ret (-1, -1)
           else if negb (isnumeric c1) then Ret (-1, -1)
           else
             n <~ int c1 ;;;
             if (n <? 0) || (n >? 8) then Ret (-1, -1)
             else
               let row := Z.abs (n - 8) in
               match letter_to_num !! lower c0 with
               | None => Ret (-1, -1)
               | Some col => Ret (row, col)
               end
       | _ => Raise IndexError
       end.

(** ** GameBoard.py: methods that only read the board *)

(** [move_direction] *)
Definition move_direction (sq_from sq_to : Square) (piece : Piece) : Direction :=
  if (sq_from.1 =? sq_to.1) || (sq_from.2 =? sq_to.2) then
    if (sq_from.1 - sq_to.1 >? 0) && is_Pawn piece then w_FORWARD
    else if (sq_from.1 - sq_to.1 <? 0) && is_Pawn piece then b_FORWARD
    else STRAIGHT
  else if Z.abs (sq_from.1 - sq_to.1) =? Z.abs (sq_from.2 - sq_to.2) then
    if (sq_from.1 - 1 =? sq_to.1) && (sq_from.2 - 1 =? sq_to.2) && is_Pawn piece
    then w_DIAGONAL
    else if (sq_from.1 - 1 =? sq_to.1) && (sq_from.2 + 1 =? sq_to.2) && is_Pawn piece
    then w_DIAGONAL
    else if (sq_from.1 + 1 =? sq_to.1) && (sq_from.2 - 1 =? sq_to.2) && is_Pawn piece
    then b_DIAGONAL
    else if (sq_from.1 + 1 =? sq_to.1) && (sq_from.2 + 1 =? sq_to.2) && is_Pawn piece
    then b_DIAGONAL
    else DIAGONAL
  else NoDirection.

(** The loop shared by the three [clear_path_*] methods:
    [for sq in squares: if self._board[..][..] is not None: return False]
    followed by [return True]. *)
Fixpoint path_is_empty (b : Board) (squares : list Square) : Res bool :=
  match squares with
  | [] => Ret true
  | sq :: rest =>
      x <~ getitem2 b sq ;;;
      match x with
      | Some _ => Ret false
      | None => path_is_empty b rest
      end
  end.

Definition clear_path_straight (b : Board) (sq_from sq_to : Square) : Res bool :=
  let from_row := sq_from.1 in
  let from_col := sq_from.2 in
  let to_row := sq_to.1 in
  let to_col := sq_to.2 in
  if from_row - to_row >? 0 then
    path_is_empty b (map (fun row => (row, from_col)) (range (to_row + 1) from_row))
  else if from_row - to_row <? 0 then
    path_is_empty b (map (fun row => (row, from_col)) (range (from_row + 1) to_row))
  else if from_col - to_col >? 0 then
    path_is_empty b (map (fun col => (from_row, col)) (range (to_col + 1) from_col))
  else if from_col - to_col <? 0 then
    path_is_empty b (map (fun col => (from_row, col)) (range (from_col + 1) to_col))
  else Ret false.

Definition clear_path_diagonal (b : Board) (sq_from sq_to : Square) : Res bool :=
  let from_row := sq_from.1 in
  let from_col := sq_from.2 in
  let to_row := sq_to.1 in
  let to_col := sq_to.2 in
  let row_direction := from_row - to_row in
  let col_direction := from_col - to_col in
  let distance := Z.abs (from_row - to_row) in
  if (row_direction >? 0) && (col_direction >? 0) then
    path_is_empty b
      (map (fun shift => (from_row - shift, from_col - shift)) (range 1 distance))
  else if (row_direction >? 0) && (col_direction <? 0) then
    path_is_empty b
      (map (fun shift => (from_row - shift, from_col + shift)) (range 1 distance))
  else if (row_direction <? 0) && (col_direction >? 0) then
    path_is_empty b
      (map (fun shift => (from_row + shift, from_col - shift)) (range 1 distance))
  else if (row_direction <? 0) && (col_direction <? 0) then
    path_is_empty b
      (map (fun shift => (from_row + shift, from_col + shift)) (range 1 distance))
  else Ret false.

(** [clear_path_pawn] returns [None] when the two rows are equal. *)
Definition clear_path_pawn (b : Board) (sq_from sq_to : Square) : Res Verdict :=
  let from_row := sq_from.1 in
  let from_col := sq_from.2 in
  let to_row := sq_to.1 in
  if from_row - to_row >? 0 then
    r <~ path_is_empty b (map (fun row => (row, from_col)) (range to_row from_row)) ;;;
    Ret (of_bool r)
  else if from_row - to_row <? 0 then
    r <~ path_is_empty b
           (map (fun row => (row, from_col)) (range (from_row + 1) (to_row + 1))) ;;;
    Ret (of_bool r)
  else Ret VNone.

Definition is_occupied (x : option Piece) : bool :=
  match x with Some _ => true | None => false end.

Definition pawn_capture (b : Board) (sq_from sq_to : Square) (color : Color)
  : Res bool :=
  let from_row := sq_from.1 in
  let from_col := sq_from.2 in
  let to_row := sq_to.1 in
  let to_col := sq_to.2 in
  let row_direction := from_row - to_row in
  let col_direction := from_col - to_col in
  capture <~
    (if (row_direction >? 0) && (col_direction >? 0) then
       x <~ getitem2 b (from_row - 1, from_col - 1) ;;; Ret (is_occupied x)
     else if (row_direction >? 0) && (col_direction <? 0) then
       x <~ getitem2 b (from_row - 1, from_col + 1) ;;; Ret (is_occupied x)
     else if (row_direction <? 0) && (col_direction >? 0) then
       x <~ getitem2 b (from_row + 1, from_col - 1) ;;; Ret (is_occupied x)
     else if (row_direction <? 0) && (col_direction <? 0) then
       x <~ getitem2 b (from_row + 1, from_col + 1) ;;; Ret (is_occupied x)
     else Ret false) ;;;
  if capture then
    target_square <~ getitem2 b sq_to ;;;
    match target_square with
    | None => Raise AttributeError
    | Some t => if color_eqb color (get_color t) then Ret false else Ret true
    end
  else Ret false.

Definition is_capture (b : Board) (sq_from sq_to : Square) (piece : Piece)
  : Res Capture :=
  let row := sq_to.1 in
  let col := sq_to.2 in
  target_square <~ getitem2 b (row, col) ;;;
  match target_square with
  | Some t =>
      if color_eqb (get_color piece) (get_color t) then Ret WRONG_COLOR
      else if is_King piece then Ret KING
      else Ret (CBool true)
  | None => Ret (CBool false)
  end.

(** ** GameBoard.py: methods that write to the game object

    A computation receives the game object and returns it, possibly
    changed, with either a value or the exception that was raised; what
    was written before an exception stays written. *)

Definition M (A : Type) : Type := Game -> Res A * Game.

Definition ret {A} (a : A) : M A := fun g => (Ret a, g).

Definition bind {A B} (m : M A) (k : A -> M B) : M B :=
  fun g =>
    match m g with
    | (Ret a, g') => k a g'
    | (Raise e, g') => (Raise e, g')
    end.

Notation "x <- m ;; k" := (bind m (fun x => k))
  (at level 100, m at next level, right associativity).
Notation "m ;; k" := (bind m (fun _ => k))
  (at level 100, right associativity).

Definition lift {A} (r : Res A) : M A := fun g => (r, g).

Definition gets {A} (f : Game -> A) : M A := fun g => (Ret (f g), g).

Definition modify (f : Game -> Game) : M unit := fun g => (Ret tt, f g).

Definition board_get (sq : Square) : M (option Piece) :=
  b <- gets board ;; lift (getitem2 b sq).

Definition board_set (sq : Square) (x : option Piece) : M unit :=
  b <- gets board ;;
  b' <- lift (setitem2 b sq x) ;;
  modify (fun g => with_board g b').

(** A piece object is referenced from exactly one square of the board
    ([initialize_board] creates one object per square and [move_piece]
    moves the reference), so the model keeps the object in its square and
    an attribute assignment on the object is a write to that square.
    [self] below is the square holding the object; [make_move] passes
    the square it has just read the piece from. *)
Definition store (b : Board) (sq : Square) (x : option Piece) : Board :=
  match b !! Z.to_nat sq.1 with
  | Some row => <[Z.to_nat sq.1 := <[Z.to_nat sq.2 := x]> row]> b
  | None => b
  end.

Definition set_is_first_turn (self : Square) (color : Color) (v : bool) : M unit :=
  modify (fun g => with_board g (store (board g) self (Some (Pawn color v)))).

(** [Pawn.is_valid_move] *)
Definition Pawn_is_valid_move (self : Square) (color : Color) (is_first_turn : bool)
    (direction : Direction) (distance : Z) : M Verdict :=
  if direction_eqb direction b_DIAGONAL && color_eqb color BLACK && (distance =? 1)
  then ret PAWN_CAPTURE
  else if direction_eqb direction w_DIAGONAL && color_eqb color WHITE && (distance =? 1)
  then ret PAWN_CAPTURE
  else if negb (direction_eqb direction b_FORWARD)
          && negb (direction_eqb direction w_FORWARD)
  then ret VFalse
  else
    let black_valid := color_eqb color BLACK && direction_eqb direction b_FORWARD in
    let white_valid := color_eqb color WHITE && direction_eqb direction w_FORWARD in
    if black_valid || white_valid then
      if (distance =? 2) && is_first_turn then
        set_is_first_turn self color false ;;
        ret VTrue
      else if distance =? 1 then ret VTrue
      else ret VFalse
    else ret VFalse.

(** [piece_move]; [self] is the square of [piece]. *)
Definition piece_move (self : Square) (direction : Direction) (distance : Z)
    (piece : Piece) : M Verdict :=
  match piece with
  | Queen _ => ret VTrue
  | King _ => if distance =? 1 then ret VTrue else ret VNone
  | Rook _ => if direction_eqb direction STRAIGHT then ret VTrue else ret VNone
  | Bishop _ => if direction_eqb direction DIAGONAL then ret VTrue else ret VNone
  | Pawn color is_first_turn =>
      Pawn_is_valid_move self color is_first_turn direction distance
  | Knight _ => ret VFalse
  end.

(** [valid_move] *)
Definition valid_move (sq_from sq_to : Square) (piece : Piece) : M Verdict :=
  let direction := move_direction sq_from sq_to piece in
  if direction_eqb direction NoDirection then ret VFalse
  else
    let distance := Z.abs (sq_from.1 - sq_to.1) in
    let distance :=
      if direction_eqb direction STRAIGHT && (sq_from.1 =? sq_to.1)
      then sq_from.2 - sq_to.2 else distance in
    piece_move_valid <- piece_move sq_from direction distance piece ;;
    match piece_move_valid with
    | PAWN_CAPTURE =>
        b <- gets board ;;
        is_capture <- lift (pawn_capture b sq_from sq_to (get_color piece)) ;;
        if is_capture : bool then ret PAWN_CAPTURE else ret VFalse
    | VTrue =>
        b <- gets board ;;
        if (is_Queen piece || is_King piece) && direction_eqb direction STRAIGHT then
          r <- lift (clear_path_straight b sq_from sq_to) ;; ret (of_bool r)
        else if (is_Queen piece || is_King piece) && direction_eqb direction DIAGONAL then
          r <- lift (clear_path_diagonal b sq_from sq_to) ;; ret (of_bool r)
        else if is_Rook piece then
          r <- lift (clear_path_straight b sq_from sq_to) ;; ret (of_bool r)
        else if is_Bishop piece then
          r <- lift (clear_path_diagonal b sq_from sq_to) ;; ret (of_bool r)
        else if is_Pawn piece then
          lift (clear_path_pawn b sq_from sq_to)
        else ret VNone
    | VFalse | VNone => ret VFalse
    end.

(** [update_turn] *)
Definition update_turn : M unit :=
  modify (fun g =>
    match player_turn g with
    | WHITE => with_player_turn g BLACK
    | BLACK => with_player_turn g WHITE
    end).

(** The nested loops of [explosion], as one loop over the nine offsets in
    the order the source visits them. *)
Definition offsets : list (Z * Z) :=
  flat_map (fun row_offset => map (fun col_offset => (row_offset, col_offset)) (range 0 3))
           (range 0 3).

Definition set_king_status (c : Color) (v : bool) : M unit :=
  modify (fun g =>
    with_king_status g
      match c with
      | WHITE => {| ks_WHITE := v; ks_BLACK := ks_BLACK (king_status g) |}
      | BLACK => {| ks_WHITE := ks_WHITE (king_status g); ks_BLACK := v |}
      end).

Fixpoint explosion_scan (row col : Z) (offs : list (Z * Z)) (explode_list : list Square)
  : M (list Square) :=
  match offs with
  | [] => ret explode_list
  | (row_offset, col_offset) :: rest =>
      if (row + row_offset <? 0) || (row + row_offset >? 7)
         || (col + col_offset <? 0) || (col + col_offset >? 7)
      then explosion_scan row col rest explode_list
      else
        x <- board_get (row + row_offset, col + col_offset) ;;
        match x with
        | Some p =>
            (if is_King p then
               if color_eqb (get_color p) WHITE then set_king_status WHITE false
               else set_king_status BLACK false
             else ret tt) ;;
            explosion_scan row col rest
              (explode_list ++ [(row + row_offset, col + col_offset)])
        | None => explosion_scan row col rest explode_list
        end
  end.

(** The second loop of [explosion]. *)
Fixpoint explode_all (explode_list : list Square) : M unit :=
  match explode_list with
  | [] => ret tt
  | item :: rest =>
      x <- board_get item ;;
      (if cell_is_Pawn x then ret tt else board_set item None) ;;
      explode_all rest
  end.

(** [explosion] *)
Definition explosion (sq_to : Square) : M bool :=
  let row := sq_to.1 - 1 in
  let col := sq_to.2 - 1 in
  explode_list <- explosion_scan row col offsets [] ;;
  ks <- gets king_status ;;
  if negb (ks_WHITE ks) && negb (ks_BLACK ks) then ret false
  else
    captured_square <- board_get sq_to ;;
    (if cell_is_Pawn captured_square then board_set sq_to None else ret tt) ;;
    explode_all explode_list ;;
    ret true.

(** [update_win] *)
Definition update_win : M unit :=
  ks <- gets king_status ;;
  if negb (ks_WHITE ks) then modify (fun g => with_game_state g BLACK_WON)
  else if negb (ks_BLACK ks) then modify (fun g => with_game_state g WHITE_WON)
  else ret tt.

(** [move_piece] *)
Definition move_piece (sq_from sq_to : Square) : M unit :=
  x <- board_get sq_from ;;
  board_set sq_to x ;;
  board_set sq_from None.

(** [update_board] *)
Definition update_board (sq_from sq_to : Square) (capture : bool) : M bool :=
  update_turn ;;
  if capture then
    explode <- explosion sq_to ;;
    if negb explode then ret false
    else
      board_set sq_from None ;;
      update_win ;;
      ret true
  else
    move_piece sq_from sq_to ;;
    ret true.

(** [make_move] *)
Definition make_move (sq_from sq_to : string) : M bool :=
  state <- gets game_state ;;
  if negb (game_state_eqb state UNFINISHED) then ret false
  else
    sq_from <- lift (notation_to_board_pos sq_from) ;;
    sq_to <- lift (notation_to_board_pos sq_to) ;;
    if sq_eqb sq_from (-1, -1) || sq_eqb sq_to (-1, -1) then ret false
    else
      x <- board_get sq_from ;;
      match x with
      | None => ret false
      | Some piece =>
          if sq_eqb sq_from sq_to then ret false
          else
            turn <- gets player_turn ;;
            if negb (color_eqb (get_color piece) turn) then ret false
            else
              valid <- (if is_Knight piece
                        then ret (of_bool (Knight_is_valid_move sq_from sq_to))
                        else valid_move sq_from sq_to piece) ;;
              match valid with
              | PAWN_CAPTURE => update_board sq_from sq_to true
              | VTrue =>
                  b <- gets board ;;
                  capture <- lift (is_capture b sq_from sq_to piece) ;;
                  match capture with
                  | KING | WRONG_COLOR => ret false
                  | CBool capture => update_board sq_from sq_to capture
                  end
              | VFalse | VNone => ret false
              end
      end.

(** A sequence of [make_move] calls on one game object, as the loop of
    [play_game] issues them; the value each call returns is dropped. *)
Definition play (moves : list (string * string)) (g : Game) : Game :=
  fold_left (fun g mv => (make_move mv.1 mv.2 g).2) moves g.

(** [rapture_pawns]. The three branches run the same pair of nested
    [enumerate] loops and differ in the test of the item; [color] is the
    optional argument, [None] when the caller leaves it out. The indices
    come from the lists themselves, and an item is read when its turn
    comes. *)
Definition enumerate_squares (b : Board) : list Square :=
  mjoin (imap (fun row_index (row : list (option Piece)) =>
                 imap (fun col_index (_ : option Piece) =>
                         (Z.of_nat row_index, Z.of_nat col_index)) row) b).

Fixpoint rapture_loop (test : Piece -> bool) (squares : list Square) : M unit :=
  match squares with
  | [] => ret tt
  | sq :: rest =>
      item <- board_get sq ;;
      (match item with
       | Some p => if test p then board_set sq None else ret tt
       | None => ret tt
       end) ;;
      rapture_loop test rest
  end.

Definition rapture_test (color : option string) (item : Piece) : bool :=
  match color with
  | Some c =>
      if String.eqb c "b" then is_Pawn item && color_eqb (get_color item) BLACK
      else if String.eqb c "w" then is_Pawn item && color_eqb (get_color item) WHITE
      else is_Pawn item
  | None => is_Pawn item
  end.

Definition rapture_pawns (color : option string) : M unit :=
  b <- gets board ;;
  rapture_loop (rapture_test color) (enumerate_squares b).

(** ** Vocabulary of the statements *)

(** Eight rows of eight cells: the shape [initialize_board] builds. *)
Definition wf_board (b : Board) : Prop :=
  length b = 8%nat ∧ Forall (fun row : list (option Piece) => length row = 8%nat) b.

Definition in_board (sq : Square) : Prop :=
  0 <= sq.1 < 8 ∧ 0 <= sq.2 < 8.

(** The games a caller can bring about: a new game, and whatever a call of
    [make_move] leaves behind (also when the call raised). *)
Inductive reachable : Game -> Prop :=
| reachable_new : reachable new_game
| reachable_move g a b : reachable g -> reachable (make_move a b g).2.

(** Both kings marked destroyed while the game is still unfinished. *)
Definition both_kings_marked (g : Game) : Prop :=
  ks_WHITE (king_status g) = false ∧ ks_BLACK (king_status g) = false
  ∧ game_state g = UNFINISHED.

(** [p'] is the object [p], possibly after [Pawn.is_valid_move] has
    cleared its first-turn attribute. *)
Definition same_object (p p' : Piece) : Prop :=
  p' = p ∨ ∃ c, p = Pawn c true ∧ p' = Pawn c false.

Definition opponent (c : Color) : Color :=
  match c with WHITE => BLACK | BLACK => WHITE end.

(** Squares of the 3x3 block around [sq_to]. *)
Definition in_blast (sq_to sq : Square) : Prop :=
  sq_to.1 - 1 <= sq.1 <= sq_to.1 + 1 ∧ sq_to.2 - 1 <= sq.2 <= sq_to.2 + 1.

(** The content of a square of a well-shaped board, as a total function. *)
Definition cell (b : Board) (sq : Square) : option Piece :=
  match b !! Z.to_nat sq.1 with
  | Some row => match row !! Z.to_nat sq.2 with Some x => x | None => None end
  | None => None
  end.

(** What checking a move can do to the game: nothing, or clear the
    first-turn attribute of the pawn on [sq_from]. *)
Definition flag_effect (sq_from : Square) (piece : Piece) (g g1 : Game) : Prop :=
  g1 = g
  ∨ ∃ c, piece = Pawn c true
         ∧ g1 = with_board g (store (board g) sq_from (Some (Pawn c false))).

(** Hoare triples over [M]: the postcondition sees the value or the
    exception, and the game object left behind. *)
Definition hoare {A} (P : Game -> Prop) (m : M A) (Q : Res A -> Game -> Prop) : Prop :=
  ∀ g r g', P g -> m g = (r, g') -> Q r g'.

Definition preserves {A} (P : Game -> Prop) (m : M A) : Prop :=
  hoare P m (fun _ => P).

Definition wf_game (g : Game) : Prop := wf_board (board g).

Definition in_board_b (sq : Square) : bool :=
  (0 <=? sq.1) && (sq.1 <=? 7) && (0 <=? sq.2) && (sq.2 <=? 7).

(** The occupied squares of the board among [(row, col) + offs], in the
    order of [offs]: what the first loop of [explosion] collects. *)
Definition occupied_in (b : Board) (row col : Z) (offs : list (Z * Z)) : list Square :=
  List.filter (fun sq => in_board_b sq && is_occupied (cell b sq))
              (map (fun off : Z * Z => (row + off.1, col + off.2)) offs).

(** Sessions used as concrete inputs. *)

(** 1. Nf3 a6: the f-pawn is now blocked on its third rank. *)
Definition blocked_pawn_game : Game :=
  play [("g1", "f3"); ("a7", "a6")]%string new_game.

(** 1. e4 d5 2. Ke2 Kd7 3. Kd3 Kd6 4. Kd4 a6: the white pawn on e4 attacks
    d5, and both kings stand next to d5. *)
Definition both_kings_near_game : Game :=
  play [("e2", "e4"); ("d7", "d5"); ("e1", "e2"); ("e8", "d7");
        ("e2", "d3"); ("d7", "d6"); ("d3", "d4"); ("a7", "a6")]%string new_game.

(** The game after the vetoed capture exd5. *)
Definition vetoed_game : Game :=
  (make_move "e4" "d5" both_kings_near_game).2.

(** 1. e3 a6: the e-pawn has made a one-square first move. *)
Definition one_step_game : Game :=
  play [("e2", "e3"); ("a7", "a6")]%string new_game.

(** 1. e4 d5: a pawn can capture a pawn. *)
Definition pawn_takes_pawn_game : Game :=
  play [("e2", "e4"); ("d7", "d5")]%string new_game.

(** 1. e4 e5 2. Ke2 a6 3. Ke3 a5: the white king on e3 with d3 and f3 empty. *)
Definition king_walk_game : Game :=
  play [("e2", "e4"); ("e7", "e5"); ("e1", "e2"); ("a7", "a6");
        ("e2", "e3"); ("a6", "a5")]%string new_game.

(** 1. Nf3 a6 2. Ng5 a5 3. Nxf7: the black king is blown up. *)
Definition won_game : Game :=
  play [("g1", "f3"); ("a7", "a6"); ("f3", "g5"); ("a6", "a5");
        ("g5", "f7")]%string new_game.

(** 1. a4 a5: the rook on a1 can rise along its column. *)
Definition rook_lift_game : Game :=
  play [("a2", "a4"); ("a7", "a5")]%string new_game.

(** 1. e4 e5: bishop and queen have open diagonals. *)
Definition open_game : Game :=
  play [("e2", "e4"); ("e7", "e5")]%string new_game.

(** The algebraic notation of a square of the board, lower case. *)
Definition notation_of_square (sq : Square) : string :=
  String (ascii_of_N (Z.to_N (97 + sq.2)))
         (String (ascii_of_N (Z.to_N (56 - sq.1))) EmptyString).

Definition code (c : ascii) : Z := Z.of_N (N_of_ascii c).

(** [x] lies strictly between [a] and [b], whichever is the smaller. *)
Definition between (a b x : Z) : Prop := a < x < b ∨ b < x < a.

(** The two squares share a row or a column. *)
Definition straight_line (sq_from sq_to : Square) : Prop :=
  sq_from.1 = sq_to.1 ∨ sq_from.2 = sq_to.2.

(** The two squares lie on a common diagonal. *)
Definition diagonal_line (sq_from sq_to : Square) : Prop :=
  Z.abs (sq_from.1 - sq_to.1) = Z.abs (sq_from.2 - sq_to.2).

(** Every square strictly between two squares of a row or column is
    empty. *)
Definition straight_path_empty (b : Board) (sq_from sq_to : Square) : Prop :=
  ∀ sq, (sq.2 = sq_from.2 ∧ sq_from.2 = sq_to.2 ∧ between sq_from.1 sq_to.1 sq.1)
        ∨ (sq.1 = sq_from.1 ∧ sq_from.1 = sq_to.1 ∧ between sq_from.2 sq_to.2 sq.2) ->
        cell b sq = None.

(** Every square strictly between two squares of a diagonal is empty. *)
Definition diagonal_path_empty (b : Board) (sq_from sq_to : Square) : Prop :=
  ∀ k, 0 < k < Z.abs (sq_from.1 - sq_to.1) ->
       cell b (sq_from.1 + k * Z.sgn (sq_to.1 - sq_from.1),
               sq_from.2 + k * Z.sgn (sq_to.2 - sq_from.2)) = None.

(** A king of colour [c] stands in the 3x3 block around [sq_to]. *)
Definition king_in_blast (b : Board) (sq_to : Square) (c : Color) : Prop :=
  ∃ sq, in_board sq ∧ in_blast sq_to sq ∧ cell b sq = Some (King c).

(** The cell holds the king of colour [c]. *)
Definition cell_is_King_of (c : Color) (x : option Piece) : bool :=
  match x with
  | Some (King c') => color_eqb c' c
  | _ => false
  end.

(** A king of colour [c] is among the squares [l] of the board. *)
Definition king_among (b : Board) (c : Color) (l : list Square) : bool :=
  existsb (fun sq => cell_is_King_of c (cell b sq)) l.

(** How the game state and the king flags go together. *)
Definition state_matches_kings (g : Game) : Prop :=
  match game_state g with
  | UNFINISHED => ks_WHITE (king_status g) = ks_BLACK (king_status g)
  | WHITE_WON => ks_WHITE (king_status g) = true ∧ ks_BLACK (king_status g) = false
  | BLACK_WON => ks_WHITE (king_status g) = false ∧ ks_BLACK (king_status g) = true
  end.

(** The expression of [make_move] that decides whether the move is valid. *)
Definition validity (sq_from sq_to : Square) (piece : Piece) : M Verdict :=
  if is_Knight piece then ret (of_bool (Knight_is_valid_move sq_from sq_to))
  else valid_move sq_from sq_to piece.

(** * Properties *)

(** ** The monad *)

Lemma bind_inv {A B} (m : M A) (k : A -> M B) g r g' :
  bind m k g = (r, g') ->
  (∃ a g1, m g = (Ret a, g1) ∧ k a g1 = (r, g'))
  ∨ (∃ e, m g = (Raise e, g') ∧ r = Raise e).
Proof.
  unfold bind. destruct (m g) as [[a|e] g1]; intros H.
  - left. eauto.
  - right. inversion H; subst. eauto.
Qed.

Lemma bind_ret_inv {A B} (m : M A) (k : A -> M B) g v g' :
  bind m k g = (Ret v, g') ->
  ∃ a g1, m g = (Ret a, g1) ∧ k a g1 = (Ret v, g').
Proof.
  intros H. apply bind_inv in H as [H|[e [_ H]]]; [exact H|discriminate].
Qed.

(** ** Calls on concrete games *)

(** C1. A rejected move can change the game: the two-square advance f2-f4,
    blocked by the knight on f3, is rejected but clears the first-turn
    attribute of the pawn on f2; the vetoed capture exd5 is rejected but
    passes the turn to Black. *)
Theorem rejected_move_changes_state :
  (make_move "f2" "f4" blocked_pawn_game).1 = Ret false
  ∧ getitem2 (board blocked_pawn_game) (6, 5) = Ret (Some (Pawn WHITE true))
  ∧ getitem2 (board (make_move "f2" "f4" blocked_pawn_game).2) (6, 5)
    = Ret (Some (Pawn WHITE false))
  ∧ (make_move "e4" "d5" both_kings_near_game).1 = Ret false
  ∧ player_turn both_kings_near_game = WHITE
  ∧ player_turn (make_move "e4" "d5" both_kings_near_game).2 = BLACK.
Proof. vm_compute. repeat split. Qed.

(** C2. The capture exd5 with both kings next to d5 is rejected and leaves
    the board as it was, but both king flags, true before the call, are
    false after it. *)
Theorem veto_clears_both_king_flags :
  (make_move "e4" "d5" both_kings_near_game).1 = Ret false
  ∧ board vetoed_game = board both_kings_near_game
  ∧ king_status both_kings_near_game = {| ks_WHITE := true; ks_BLACK := true |}
  ∧ king_status vetoed_game = {| ks_WHITE := false; ks_BLACK := false |}.
Proof. vm_compute. repeat split. Qed.

(** C3. After the one-square first move e2-e3 the pawn still carries its
    first-turn attribute, and its two-square advance e3-e5 is accepted. *)
Theorem two_square_advance_after_first_move :
  getitem2 (board new_game) (6, 4) = Ret (Some (Pawn WHITE true))
  ∧ (make_move "e2" "e3" new_game).1 = Ret true
  ∧ getitem2 (board one_step_game) (5, 4) = Ret (Some (Pawn WHITE true))
  ∧ (make_move "e3" "e5" one_step_game).1 = Ret true
  ∧ getitem2 (board (make_move "e3" "e5" one_step_game).2) (3, 4)
    = Ret (Some (Pawn WHITE false)).
Proof. vm_compute. repeat split. Qed.

(** C4, as stated, fails: the capture exd5 is applied and the black pawn
    that stood on the destination d5 is gone. *)
Lemma captured_pawn_is_removed :
  (make_move "e4" "d5" pawn_takes_pawn_game).1 = Ret true
  ∧ getitem2 (board pawn_takes_pawn_game) (3, 3) = Ret (Some (Pawn BLACK false))
  ∧ getitem2 (board (make_move "e4" "d5" pawn_takes_pawn_game).2) (3, 3) = Ret None.
Proof. vm_compute. repeat split. Qed.

(** C5. The white king on e3 may step left to the empty square d3 but not
    right to the empty square f3: one square to the right is rejected. *)
Theorem king_cannot_step_right :
  getitem2 (board king_walk_game) (5, 4) = Ret (Some (King WHITE))
  ∧ getitem2 (board king_walk_game) (5, 3) = Ret None
  ∧ getitem2 (board king_walk_game) (5, 5) = Ret None
  ∧ (make_move "e3" "d3" king_walk_game).1 = Ret true
  ∧ make_move "e3" "f3" king_walk_game = (Ret false, king_walk_game)
  ∧ valid_move (5, 4) (5, 5) (King WHITE) king_walk_game
    = (Ret VFalse, king_walk_game).
Proof. vm_compute. repeat split. Qed.

(** C6. The rank digit 0 passes [notation_to_board_pos] as row 8, and
    [make_move] raises [IndexError] when it reads that row. *)
Theorem make_move_raises_on_rank_zero :
  notation_to_board_pos "a0" = Ret (8, 0)
  ∧ make_move "a0" "a1" new_game = (Raise IndexError, new_game).
Proof. vm_compute. repeat split. Qed.

(** ** After the game is over *)

(** C8. Once a win is recorded, [make_move] returns [False] for every pair
    of strings and leaves the game object as it was. *)
Theorem make_move_after_game_over (g : Game) (a b : string) :
  game_state g ≠ UNFINISHED ->
  make_move a b g = (Ret false, g).
Proof.
  intros Hover. unfold make_move, bind, gets. simpl.
  destruct (game_state g); [congruence | reflexivity | reflexivity].
Qed.

Lemma make_move_after_game_over_witness :
  game_state won_game = WHITE_WON
  ∧ make_move "e7" "e5" won_game = (Ret false, won_game).
Proof.
  split; [reflexivity |].
  apply make_move_after_game_over. vm_compute. discriminate.
Defined.

(** ** Python lists and the board *)

Lemma getitem_lookup {A} (l : list A) (i : Z) (x : A) :
  0 <= i -> l !! Z.to_nat i = Some x -> getitem l i = Ret x.
Proof.
  intros Hi Hl. unfold getitem.
  pose proof (lookup_lt_Some _ _ _ Hl) as Hlt.
  destruct (i <? 0) eqn:E1; [lia|].
  destruct ((i <? 0) || (Z.of_nat (length l) <=? i)) eqn:E2.
  - apply orb_true_iff in E2 as [E2|E2]; lia.
  - rewrite Hl. reflexivity.
Qed.

Lemma getitem_ret_nonneg {A} (l : list A) (i : Z) (x : A) :
  0 <= i -> getitem l i = Ret x ->
  i < Z.of_nat (length l) ∧ l !! Z.to_nat i = Some x.
Proof.
  intros Hi. unfold getitem.
  destruct (i <? 0) eqn:E1; [lia|].
  destruct ((i <? 0) || (Z.of_nat (length l) <=? i)) eqn:E2; [discriminate|].
  apply orb_false_iff in E2 as [_ E2].
  destruct (l !! Z.to_nat i) eqn:E3; [|discriminate].
  intros [= ->]. split; [lia | reflexivity].
Qed.

Lemma setitem_in_range {A} (l : list A) (i : Z) (x : A) :
  0 <= i < Z.of_nat (length l) -> setitem l i x = Ret (<[Z.to_nat i := x]> l).
Proof.
  intros Hi. unfold setitem.
  destruct (i <? 0) eqn:E1; [lia|].
  destruct ((i <? 0) || (Z.of_nat (length l) <=? i)) eqn:E2; [|reflexivity].
  apply orb_true_iff in E2 as [E2|E2]; lia.
Qed.

Lemma setitem_ret {A} (l l' : list A) (i : Z) (x : A) :
  setitem l i x = Ret l' -> ∃ j, l' = <[j := x]> l.
Proof.
  unfold setitem.
  destruct ((_ <? 0) || _); [discriminate|]. intros [= <-]. eauto.
Qed.

Lemma getitem_ret_elem {A} (l : list A) (i : Z) (x : A) :
  getitem l i = Ret x -> x ∈ l.
Proof.
  unfold getitem. destruct ((_ <? 0) || _); [discriminate|].
  destruct (l !! _) eqn:E; [|discriminate]. intros [= <-].
  eapply list_elem_of_lookup_2; eauto.
Qed.

Lemma wf_board_lookup b i row :
  wf_board b -> b !! i = Some row -> length row = 8%nat.
Proof.
  intros [_ Hrows] Hrow. rewrite Forall_lookup in Hrows. eauto.
Qed.

Lemma wf_board_row b (r : Z) :
  wf_board b -> 0 <= r < 8 -> ∃ row, b !! Z.to_nat r = Some row ∧ length row = 8%nat.
Proof.
  intros Hwf Hr.
  destruct (lookup_lt_is_Some_2 b (Z.to_nat r)) as [row Hrow].
  { destruct Hwf as [-> _]. lia. }
  exists row. split; [done|]. eapply wf_board_lookup; eauto.
Qed.

Lemma wf_initialize_board : wf_board initialize_board.
Proof. split; [reflexivity|]. repeat constructor. Qed.

Lemma getitem2_wf b sq :
  wf_board b -> in_board sq -> getitem2 b sq = Ret (cell b sq).
Proof.
  intros Hwf [Hr Hc]. unfold getitem2, cell.
  destruct (wf_board_row b sq.1 Hwf Hr) as (row & Hrow & Hlen).
  rewrite (getitem_lookup _ _ _ (proj1 Hr) Hrow). simpl. rewrite Hrow.
  destruct (lookup_lt_is_Some_2 row (Z.to_nat sq.2)) as [x Hx]; [lia|].
  rewrite Hx. apply getitem_lookup; [lia | done].
Qed.

Lemma getitem2_ret_in_board b sq x :
  wf_board b -> 0 <= sq.1 -> 0 <= sq.2 -> getitem2 b sq = Ret x -> in_board sq.
Proof.
  intros Hwf Hr Hc. unfold getitem2.
  destruct (getitem b sq.1) as [row|] eqn:E1; [simpl|discriminate].
  intros E2.
  apply getitem_ret_nonneg in E1 as [Hlt Hrow]; [|done].
  apply getitem_ret_nonneg in E2 as [Hlt2 _]; [|done].
  rewrite (wf_board_lookup _ _ _ Hwf Hrow) in Hlt2.
  destruct Hwf as [Hlen _]. rewrite Hlen in Hlt.
  split; lia.
Qed.

Lemma setitem2_wf b sq x :
  wf_board b -> in_board sq -> setitem2 b sq x = Ret (store b sq x).
Proof.
  intros Hwf [Hr Hc]. unfold setitem2, store.
  destruct (wf_board_row b sq.1 Hwf Hr) as (row & Hrow & Hlen).
  rewrite (getitem_lookup _ _ _ (proj1 Hr) Hrow). simpl. rewrite Hrow.
  rewrite setitem_in_range by lia. simpl.
  apply setitem_in_range. destruct Hwf as [-> _]. lia.
Qed.

Lemma wf_board_insert b i row :
  wf_board b -> length row = 8%nat -> wf_board (<[i := row]> b).
Proof.
  intros [Hlen Hrows] Hrow. split.
  - by rewrite length_insert.
  - apply Forall_insert; done.
Qed.

Lemma wf_store b sq x : wf_board b -> wf_board (store b sq x).
Proof.
  intros Hwf. unfold store.
  destruct (b !! Z.to_nat sq.1) as [row|] eqn:Hrow; [|done].
  apply wf_board_insert; [done|].
  rewrite length_insert. eapply wf_board_lookup; eauto.
Qed.

Lemma wf_setitem2 b sq x b' :
  wf_board b -> setitem2 b sq x = Ret b' -> wf_board b'.
Proof.
  intros Hwf. unfold setitem2.
  destruct (getitem b sq.1) as [row|] eqn:E1; [simpl|discriminate].
  destruct (setitem row sq.2 x) as [row'|] eqn:E2; [simpl|discriminate].
  intros E3.
  apply setitem_ret in E2 as [j ->]. apply setitem_ret in E3 as [i ->].
  apply wf_board_insert; [done|]. rewrite length_insert.
  apply getitem_ret_elem in E1. destruct Hwf as [_ Hrows].
  rewrite Forall_forall in Hrows. auto.
Qed.

Lemma cell_store_eq b sq x :
  wf_board b -> in_board sq -> cell (store b sq x) sq = x.
Proof.
  intros Hwf [Hr Hc]. unfold cell, store.
  destruct (wf_board_row b sq.1 Hwf Hr) as (row & Hrow & Hlen).
  rewrite Hrow. rewrite list_lookup_insert_eq by (destruct Hwf as [-> _]; lia).
  rewrite list_lookup_insert_eq by lia. done.
Qed.

Lemma cell_store_ne b sq sq' x :
  in_board sq -> in_board sq' -> sq ≠ sq' -> cell (store b sq x) sq' = cell b sq'.
Proof.
  intros [Hr Hc] [Hr' Hc'] Hne. unfold cell, store.
  destruct (b !! Z.to_nat sq.1) as [row|] eqn:Hrow; [|done].
  destruct (decide (Z.to_nat sq.1 = Z.to_nat sq'.1)) as [Heq|Hneq].
  - rewrite <- Heq. rewrite list_lookup_insert_eq by (eapply lookup_lt_Some; eauto).
    rewrite Hrow. rewrite list_lookup_insert_ne; [done|].
    intros Heq2. apply Hne. destruct sq, sq'; simpl in *. f_equal; lia.
  - rewrite list_lookup_insert_ne by done. done.
Qed.

Lemma store_same b sq x :
  wf_board b -> in_board sq -> cell b sq = x -> store b sq x = b.
Proof.
  intros Hwf [Hr Hc] Hx. unfold store, cell in *.
  destruct (wf_board_row b sq.1 Hwf Hr) as (row & Hrow & Hlen).
  rewrite Hrow in *.
  destruct (lookup_lt_is_Some_2 row (Z.to_nat sq.2)) as [y Hy]; [lia|].
  rewrite Hy in Hx. subst y.
  rewrite (list_insert_id row) by done. by apply list_insert_id.
Qed.

(** ** Rules for triples *)

Lemma hoare_ret {A} (P : Game -> Prop) (a : A) (Q : Res A -> Game -> Prop) :
  (∀ g, P g -> Q (Ret a) g) -> hoare P (ret a) Q.
Proof. intros H g r g' HP [= <- <-]. auto. Qed.

Lemma hoare_bind {A B} (P : Game -> Prop) (m : M A) (k : A -> M B)
    (Q : Res A -> Game -> Prop) (R : Res B -> Game -> Prop) :
  hoare P m Q ->
  (∀ e g, Q (Raise e) g -> R (Raise e) g) ->
  (∀ a, hoare (Q (Ret a)) (k a) R) ->
  hoare P (bind m k) R.
Proof.
  intros Hm He Hk g r g' HP Hrun.
  apply bind_inv in Hrun as [(a & g1 & H1 & H2)|(e & H1 & ->)].
  - eapply Hk; [|exact H2]. eapply Hm; eauto.
  - apply He. eapply Hm; eauto.
Qed.

Lemma hoare_weaken {A} (P P' : Game -> Prop) (m : M A) (Q Q' : Res A -> Game -> Prop) :
  hoare P' m Q' -> (∀ g, P g -> P' g) -> (∀ r g, Q' r g -> Q r g) -> hoare P m Q.
Proof. intros H HP HQ g r g' Hg Hrun. apply HQ. eapply H; eauto. Qed.

Lemma preserves_ret {A} (P : Game -> Prop) (a : A) : preserves P (ret a).
Proof. apply hoare_ret. auto. Qed.

Lemma preserves_lift {A} (P : Game -> Prop) (r : Res A) : preserves P (lift r).
Proof. intros g r' g' HP [= <- <-]. auto. Qed.

Lemma preserves_gets {A} (P : Game -> Prop) (f : Game -> A) : preserves P (gets f).
Proof. intros g r' g' HP [= <- <-]. auto. Qed.

Lemma preserves_modify (P : Game -> Prop) (f : Game -> Game) :
  (∀ g, P g -> P (f g)) -> preserves P (modify f).
Proof. intros H g r' g' HP [= <- <-]. auto. Qed.

Lemma preserves_bind {A B} (P : Game -> Prop) (m : M A) (k : A -> M B) :
  preserves P m -> (∀ a, preserves P (k a)) -> preserves P (bind m k).
Proof. intros Hm Hk. eapply hoare_bind; eauto. Qed.

Create HintDb pres.
#[local] Hint Resolve preserves_ret preserves_lift preserves_gets : pres.

(** One step of a preservation proof: split a bind, close a leaf, or
    branch on the scrutinee of a conditional. *)
Ltac pres_step :=
  first
    [ solve [auto with pres]
    | apply preserves_bind; [|intros ?]
    | match goal with
      | |- preserves _ (if ?c then _ else _) => destruct c
      | |- preserves _ (match ?x with _ => _ end) => destruct x
      end ].

Ltac pres := repeat pres_step.

(** ** The board keeps its shape *)

Lemma preserves_wf_board_set sq x : preserves wf_game (board_set sq x).
Proof.
  intros g r g' Hwf. unfold board_set, bind, gets, lift, modify.
  destruct (setitem2 (board g) sq x) as [b'|e] eqn:E; intros [= <- <-]; [|done].
  eapply wf_setitem2; eauto.
Qed.

Lemma preserves_wf_board_get sq : preserves wf_game (board_get sq).
Proof. unfold board_get. pres. Qed.

Lemma preserves_wf_set_is_first_turn self c v :
  preserves wf_game (set_is_first_turn self c v).
Proof. apply preserves_modify. intros g Hwf. by apply wf_store. Qed.

Lemma preserves_wf_update_turn : preserves wf_game update_turn.
Proof. apply preserves_modify. intros g Hwf. by destruct (player_turn g). Qed.

Lemma preserves_wf_set_king_status c v : preserves wf_game (set_king_status c v).
Proof. apply preserves_modify. intros g Hwf. done. Qed.

Lemma preserves_wf_update_win : preserves wf_game update_win.
Proof. unfold update_win. pres; apply preserves_modify; done. Qed.

#[local] Hint Resolve preserves_wf_board_set preserves_wf_board_get
  preserves_wf_set_is_first_turn preserves_wf_update_turn
  preserves_wf_set_king_status preserves_wf_update_win : pres.

Lemma preserves_wf_explosion_scan row col offs acc :
  preserves wf_game (explosion_scan row col offs acc).
Proof.
  revert acc. induction offs as [|[ro co] rest IH]; intros acc; simpl; pres; auto.
Qed.

Lemma preserves_wf_explode_all l : preserves wf_game (explode_all l).
Proof. induction l as [|item rest IH]; simpl; pres; auto. Qed.

#[local] Hint Resolve preserves_wf_explosion_scan preserves_wf_explode_all : pres.

Lemma preserves_wf_explosion sq_to : preserves wf_game (explosion sq_to).
Proof. unfold explosion. pres. Qed.

Lemma preserves_wf_move_piece sq_from sq_to : preserves wf_game (move_piece sq_from sq_to).
Proof. unfold move_piece. pres. Qed.

#[local] Hint Resolve preserves_wf_explosion preserves_wf_move_piece : pres.

Lemma preserves_wf_update_board sq_from sq_to capture :
  preserves wf_game (update_board sq_from sq_to capture).
Proof. unfold update_board. pres. Qed.

Lemma preserves_wf_valid_move sq_from sq_to piece :
  preserves wf_game (valid_move sq_from sq_to piece).
Proof. unfold valid_move, piece_move, Pawn_is_valid_move. pres. Qed.

#[local] Hint Resolve preserves_wf_update_board preserves_wf_valid_move : pres.

Lemma preserves_wf_make_move a b : preserves wf_game (make_move a b).
Proof. unfold make_move. pres. Qed.

Lemma reachable_wf g : reachable g -> wf_game g.
Proof.
  induction 1 as [|g a b _ IH].
  - apply wf_initialize_board.
  - destruct (make_move a b g) as [r g'] eqn:E. simpl.
    eapply preserves_wf_make_move; eauto.
Qed.

Lemma reachable_play moves g : reachable g -> reachable (play moves g).
Proof.
  revert g. induction moves as [|[a b] rest IH]; intros g Hg; [done|].
  apply IH. by constructor.
Qed.

(** ** Squares produced by [notation_to_board_pos] *)

Lemma letter_to_num_range : map_Forall (fun _ v => 0 <= v <= 7) letter_to_num.
Proof. apply (bool_decide_unpack _). by vm_compute. Qed.

Lemma int_range c n : int c = Ret n -> 0 <= n <= 9.
Proof.
  unfold int. destruct (_ && _) eqn:E; [|discriminate].
  intros [= <-]. apply andb_true_iff in E as [E1 E2]. lia.
Qed.

(** A parsed square is the pair (-1, -1) or has its row in 0..8 and its
    column in 0..7; row 8 comes from the rank digit 0. *)
Lemma notation_to_board_pos_range s sq :
  notation_to_board_pos s = Ret sq ->
  sq = (-1, -1) ∨ (0 <= sq.1 <= 8 ∧ 0 <= sq.2 <= 7).
Proof.
  unfold notation_to_board_pos.
  destruct (_ || _); [intros [= <-]; by left|].
  destruct s as [|c0 [|c1 s]]; try discriminate.
  destruct (negb (isalpha c0)); [intros [= <-]; by left|].
  destruct (negb (isnumeric c1)); [intros [= <-]; by left|].
  destruct (int c1) as [n|e] eqn:En; [simpl|discriminate].
  apply int_range in En.
  destruct ((n <? 0) || (n >? 8)) eqn:E; [intros [= <-]; by left|].
  apply orb_false_iff in E as [E1 E2].
  destruct (letter_to_num !! lower c0) as [col|] eqn:Ec; [|intros [= <-]; by left].
  intros [= <-]. right. simpl.
  apply letter_to_num_range in Ec. lia.
Qed.

Lemma sq_eqb_eq a b : sq_eqb a b = true <-> a = b.
Proof.
  unfold sq_eqb. destruct a, b; simpl. rewrite andb_true_iff.
  split; [intros [H1 H2]; f_equal; lia | intros [= -> ->]; lia].
Qed.

Lemma sq_eqb_neq a b : sq_eqb a b = false <-> a ≠ b.
Proof.
  rewrite <- sq_eqb_eq. destruct (sq_eqb a b); split; congruence.
Qed.

(** ** Reading and writing squares of a well-shaped board *)

Lemma board_get_wf sq g :
  wf_game g -> in_board sq -> board_get sq g = (Ret (cell (board g) sq), g).
Proof.
  intros Hwf Hsq. unfold board_get, bind, gets, lift.
  by rewrite getitem2_wf.
Qed.

Lemma board_set_wf sq x g :
  wf_game g -> in_board sq ->
  board_set sq x g = (Ret tt, with_board g (store (board g) sq x)).
Proof.
  intros Hwf Hsq. unfold board_set, bind, gets, lift, modify.
  by rewrite setitem2_wf.
Qed.

(** ** What checking a move does to the game *)

Lemma flag_effect_refl sq_from piece g : flag_effect sq_from piece g g.
Proof. by left. Qed.

Lemma piece_move_effect self direction distance piece g :
  hoare (fun g0 => g0 = g) (piece_move self direction distance piece)
        (fun _ g1 => flag_effect self piece g g1).
Proof.
  intros g0 r g1 -> H.
  unfold piece_move, Pawn_is_valid_move in H.
  destruct piece as [c|c|c|c|c|c f];
    repeat case_match;
    unfold ret, bind, set_is_first_turn, modify in H; simplify_eq;
    try (left; reflexivity).
  right. exists c. split; [|reflexivity].
  destruct f; [reflexivity|].
  rewrite andb_false_r in *. discriminate.
Qed.

Lemma valid_move_effect sq_from sq_to piece g :
  hoare (fun g0 => g0 = g) (valid_move sq_from sq_to piece)
        (fun _ g1 => flag_effect sq_from piece g g1).
Proof.
  unfold valid_move.
  destruct (direction_eqb _ NoDirection).
  { apply hoare_ret. intros ? ->. apply flag_effect_refl. }
  eapply hoare_bind; [apply piece_move_effect | auto |].
  intros v.
  match goal with
  | |- hoare _ ?m _ => change (preserves (fun g1 => flag_effect sq_from piece g g1) m)
  end.
  pres.
Qed.

Lemma pawn_capture_target b sq_from sq_to color :
  pawn_capture b sq_from sq_to color = Ret true ->
  ∃ t, getitem2 b sq_to = Ret (Some t).
Proof.
  unfold pawn_capture.
  match goal with |- res_bind ?m _ = _ -> _ => destruct m as [[|]|] end;
    simpl; try discriminate.
  destruct (getitem2 b sq_to) as [[t|]|]; simpl; try discriminate. eauto.
Qed.

Lemma of_bool_not_pawn_capture r : of_bool r ≠ PAWN_CAPTURE.
Proof. by destruct r. Qed.

Lemma clear_path_pawn_not_pawn_capture b sq_from sq_to :
  clear_path_pawn b sq_from sq_to ≠ Ret PAWN_CAPTURE.
Proof.
  unfold clear_path_pawn.
  repeat case_match; try discriminate;
    match goal with |- res_bind ?m _ ≠ _ => destruct m as [[|]|] end;
    simpl; discriminate.
Qed.

(** [valid_move] answers "PAWN_CAPTURE" only when the destination is
    occupied. *)
Lemma valid_move_pawn_capture sq_from sq_to piece g g1 :
  valid_move sq_from sq_to piece g = (Ret PAWN_CAPTURE, g1) ->
  ∃ t, getitem2 (board g1) sq_to = Ret (Some t).
Proof.
  unfold valid_move.
  destruct (direction_eqb _ NoDirection); [discriminate|].
  intros H. apply bind_ret_inv in H as (v & g2 & _ & H).
  destruct v; try discriminate.
  - unfold bind, gets, lift, ret in H.
    pose proof (clear_path_pawn_not_pawn_capture (board g2) sq_from sq_to).
    repeat case_match; simplify_eq;
      match goal with
      | H : of_bool _ = PAWN_CAPTURE |- _ => by apply of_bool_not_pawn_capture in H
      | _ => idtac
      end.
  - unfold bind, gets, lift, ret in H.
    destruct (pawn_capture (board g2) sq_from sq_to (get_color piece))
      as [[|]|] eqn:E; simplify_eq.
    by apply pawn_capture_target in E.
Qed.

Lemma is_capture_bool b sq_from sq_to piece c :
  is_capture b sq_from sq_to piece = Ret (CBool c) ->
  ∃ x, getitem2 b sq_to = Ret x ∧ is_occupied x = c.
Proof.
  unfold is_capture. destruct sq_to as [r k]. simpl.
  destruct (getitem2 b (r, k)) as [[t|]|]; simpl; try discriminate.
  - repeat case_match; intros [= <-]; eauto.
  - intros [= <-]; eauto.
Qed.

(** An accepted call went through [update_board], with the capture flag
    telling whether the destination was occupied. *)
Lemma make_move_accepted a b g g' :
  make_move a b g = (Ret true, g') ->
  ∃ sq_from sq_to piece g1 capture x,
    game_state g = UNFINISHED
    ∧ notation_to_board_pos a = Ret sq_from
    ∧ notation_to_board_pos b = Ret sq_to
    ∧ sq_from ≠ (-1, -1) ∧ sq_to ≠ (-1, -1) ∧ sq_from ≠ sq_to
    ∧ getitem2 (board g) sq_from = Ret (Some piece)
    ∧ get_color piece = player_turn g
    ∧ flag_effect sq_from piece g g1
    ∧ getitem2 (board g1) sq_to = Ret x ∧ is_occupied x = capture
    ∧ update_board sq_from sq_to capture g1 = (Ret true, g').
Proof.
  unfold make_move. intros H.
  apply bind_ret_inv in H as (st & g0 & [= <- <-] & H).
  destruct (game_state g) eqn:Est; simpl in H; try discriminate.
  apply bind_ret_inv in H as (sq_from & g0 & Hfrom & H).
  unfold lift in Hfrom. injection Hfrom as Hfrom <-.
  apply bind_ret_inv in H as (sq_to & g0 & Hto & H).
  unfold lift in Hto. injection Hto as Hto <-.
  destruct (sq_eqb sq_from (-1, -1)) eqn:E1; [discriminate|].
  destruct (sq_eqb sq_to (-1, -1)) eqn:E2; [discriminate|]. simpl in H.
  apply bind_ret_inv in H as (x & g0 & Hget & H).
  unfold board_get, bind, gets, lift in Hget. injection Hget as Hget <-.
  destruct x as [piece|]; [|discriminate].
  destruct (sq_eqb sq_from sq_to) eqn:E3; [discriminate|].
  apply bind_ret_inv in H as (turn & g0 & [= <- <-] & H).
  destruct (color_eqb (get_color piece) (player_turn g)) eqn:E4; [|discriminate].
  simpl in H.
  apply bind_ret_inv in H as (valid & g1 & Hvalid & H).
  assert (Heff : flag_effect sq_from piece g g1).
  { destruct (is_Knight piece).
    - injection Hvalid as _ <-. apply flag_effect_refl.
    - eapply valid_move_effect; [reflexivity | exact Hvalid]. }
  assert (Hcolor : get_color piece = player_turn g).
  { by destruct (get_color piece), (player_turn g). }
  apply sq_eqb_neq in E1, E2, E3.
  destruct valid; try discriminate.
  - apply bind_ret_inv in H as (bd & g2 & [= <- <-] & H).
    apply bind_ret_inv in H as (capture & g2 & Hcap & H).
    unfold lift in Hcap. injection Hcap as Hcap <-.
    destruct capture as [| |capture]; try discriminate.
    apply is_capture_bool in Hcap as (x & Hx & Hocc).
    exists sq_from, sq_to, piece, g1, capture, x. repeat split; auto.
  - assert (Hpc : ∃ t, getitem2 (board g1) sq_to = Ret (Some t)).
    { destruct (is_Knight piece).
      - injection Hvalid as Hv _. by apply of_bool_not_pawn_capture in Hv.
      - eapply valid_move_pawn_capture; eauto. }
    destruct Hpc as [t Ht].
    exists sq_from, sq_to, piece, g1, true, (Some t). repeat split; auto.
Qed.

Lemma bind_run {A B} (m : M A) (k : A -> M B) g a g1 :
  m g = (Ret a, g1) -> bind m k g = k a g1.
Proof. unfold bind. by intros ->. Qed.

Lemma flag_effect_facts sq_from piece g g1 :
  wf_game g -> in_board sq_from -> cell (board g) sq_from = Some piece ->
  flag_effect sq_from piece g g1 ->
  wf_game g1
  ∧ game_state g1 = game_state g
  ∧ player_turn g1 = player_turn g
  ∧ king_status g1 = king_status g
  ∧ (∃ p', cell (board g1) sq_from = Some p' ∧ same_object piece p')
  ∧ (∀ sq, in_board sq -> sq ≠ sq_from -> cell (board g1) sq = cell (board g) sq).
Proof.
  intros Hwf Hin Hcell [->|(c & -> & ->)].
  - split_and!; auto. exists piece. split; [done | by left].
  - simpl. split_and!; auto.
    + by apply wf_store.
    + exists (Pawn c false). split; [by apply cell_store_eq | right; eauto].
    + intros sq Hsq Hne. by apply cell_store_ne.
Qed.

(** A parsed square that could be read on a well-shaped board is on the
    board. *)
Lemma parsed_square_in_board s sq b x :
  wf_board b -> notation_to_board_pos s = Ret sq -> sq ≠ (-1, -1) ->
  getitem2 b sq = Ret x -> in_board sq.
Proof.
  intros Hwf Hparse Hne Hget.
  apply notation_to_board_pos_range in Hparse as [->|[Hr Hc]]; [done|].
  eapply getitem2_ret_in_board; eauto; lia.
Qed.

Lemma getitem2_cell b sq x :
  wf_board b -> in_board sq -> getitem2 b sq = Ret x -> cell b sq = x.
Proof. intros Hwf Hin. rewrite getitem2_wf by done. by intros [= ->]. Qed.

(** ** Moves that do not capture *)

Lemma update_turn_run g :
  update_turn g = (Ret tt, with_player_turn g (opponent (player_turn g))).
Proof. unfold update_turn, modify. by destruct (player_turn g). Qed.

Lemma move_piece_run sq_from sq_to g :
  wf_game g -> in_board sq_from -> in_board sq_to ->
  move_piece sq_from sq_to g
  = (Ret tt, with_board g
       (store (store (board g) sq_to (cell (board g) sq_from)) sq_from None)).
Proof.
  intros Hwf Hfrom Hto. unfold move_piece.
  rewrite (bind_run _ _ _ _ _ (board_get_wf _ _ Hwf Hfrom)).
  rewrite (bind_run _ _ _ _ _ (board_set_wf _ _ _ Hwf Hto)).
  rewrite board_set_wf; [done | by apply wf_store | done].
Qed.

Lemma update_board_move_run sq_from sq_to g :
  wf_game g -> in_board sq_from -> in_board sq_to ->
  update_board sq_from sq_to false g
  = (Ret true,
     with_board (with_player_turn g (opponent (player_turn g)))
       (store (store (board g) sq_to (cell (board g) sq_from)) sq_from None)).
Proof.
  intros Hwf Hfrom Hto. unfold update_board.
  rewrite (bind_run _ _ _ _ _ (update_turn_run g)).
  erewrite bind_run; [reflexivity|].
  by rewrite move_piece_run.
Qed.

(** C10. An accepted move onto an empty square empties the origin, puts
    the moved piece on the destination (the same object, a pawn possibly
    with its first-turn attribute cleared by the check of the move),
    leaves every other square, both king flags and the game state as they
    were, and passes the turn to the other player. *)
Theorem noncapturing_move_frame (g g' : Game) (a b : string) (sq_from sq_to : Square) :
  wf_game g ->
  make_move a b g = (Ret true, g') ->
  notation_to_board_pos a = Ret sq_from ->
  notation_to_board_pos b = Ret sq_to ->
  getitem2 (board g) sq_to = Ret None ->
  getitem2 (board g') sq_from = Ret None
  ∧ (∃ p p', getitem2 (board g) sq_from = Ret (Some p)
             ∧ getitem2 (board g') sq_to = Ret (Some p')
             ∧ same_object p p')
  ∧ (∀ sq, in_board sq -> sq ≠ sq_from -> sq ≠ sq_to ->
           getitem2 (board g') sq = getitem2 (board g) sq)
  ∧ king_status g' = king_status g
  ∧ game_state g' = game_state g
  ∧ player_turn g' = opponent (player_turn g).
Proof.
  intros Hwf Hmove Ha Hb Hempty.
  apply make_move_accepted in Hmove
    as (f & t & piece & g1 & capture & x & Hst & Ha' & Hb' & Hf1 & Ht1 & Hne
        & Hpiece & Hcolor & Heff & Hx & Hocc & Hupd).
  rewrite Ha in Ha'. injection Ha' as <-.
  rewrite Hb in Hb'. injection Hb' as <-.
  assert (Hfrom : in_board sq_from) by (eapply parsed_square_in_board; eauto).
  assert (Hto : in_board sq_to) by (eapply parsed_square_in_board; eauto).
  pose proof (getitem2_cell _ _ _ Hwf Hfrom Hpiece) as Hcp.
  destruct (flag_effect_facts _ _ _ _ Hwf Hfrom Hcp Heff)
    as (Hwf1 & Hst1 & Hturn1 & Hks1 & (p' & Hp' & Hsame) & Hframe).
  assert (x = None) as ->.
  { apply (getitem2_cell _ _ _ Hwf1 Hto) in Hx.
    rewrite Hframe in Hx by auto.
    apply (getitem2_cell _ _ _ Hwf Hto) in Hempty. congruence. }
  simpl in Hocc. subst capture.
  rewrite update_board_move_run in Hupd by done. injection Hupd as <-.
  simpl.
  assert (Hwf2 : wf_board (store (store (board g1) sq_to (cell (board g1) sq_from))
                                 sq_from None)) by (by do 2 apply wf_store).
  split_and!; try congruence.
  - rewrite getitem2_wf by done. f_equal.
    apply cell_store_eq; [by apply wf_store | done].
  - exists piece, p'. split; [done|]. split; [|done].
    rewrite getitem2_wf by done. f_equal.
    rewrite cell_store_ne by auto. rewrite cell_store_eq by done. done.
  - intros sq Hsq Hn1 Hn2. rewrite !getitem2_wf by done. f_equal.
    rewrite !cell_store_ne by auto. auto.
Qed.

Lemma noncapturing_move_frame_witness :
  wf_game new_game
  ∧ make_move "e2" "e4" new_game = (Ret true, (make_move "e2" "e4" new_game).2)
  ∧ getitem2 (board new_game) (4, 4) = Ret None
  ∧ getitem2 (board (make_move "e2" "e4" new_game).2) (6, 4) = Ret None
  ∧ player_turn (make_move "e2" "e4" new_game).2 = BLACK.
Proof.
  pose proof (noncapturing_move_frame new_game (make_move "e2" "e4" new_game).2
                "e2" "e4" (6, 4) (4, 4)) as H.
  assert (H1 : wf_game new_game) by (split; [reflexivity | repeat constructor]).
  assert (H2 : make_move "e2" "e4" new_game
               = (Ret true, (make_move "e2" "e4" new_game).2)) by (vm_compute; reflexivity).
  assert (H3 : getitem2 (board new_game) (4, 4) = Ret None) by reflexivity.
  specialize (H H1 H2 eq_refl eq_refl H3).
  destruct H as (Ha & _ & _ & _ & _ & Hb).
  split_and!; [exact H1 | exact H2 | exact H3 | exact Ha | exact Hb].
Defined.

(** ** Knights *)

Lemma Knight_is_valid_move_iff sq_from sq_to :
  Knight_is_valid_move sq_from sq_to = true
  <-> (Z.abs (sq_from.1 - sq_to.1) = 2 ∧ Z.abs (sq_from.2 - sq_to.2) = 1)
      ∨ (Z.abs (sq_from.1 - sq_to.1) = 1 ∧ Z.abs (sq_from.2 - sq_to.2) = 2).
Proof.
  unfold Knight_is_valid_move.
  destruct ((_ =? 2) && (_ =? 1)) eqn:E1.
  { apply andb_true_iff in E1 as [H1 H2]. split; [|done]. left. lia. }
  destruct ((_ =? 1) && (_ =? 2)) eqn:E2.
  { apply andb_true_iff in E2 as [H1 H2]. split; [|done]. right. lia. }
  split; [discriminate|].
  apply andb_false_iff in E1, E2. lia.
Qed.

Ltac knight_simpl :=
  cbn -[getitem2 update_board Knight_is_valid_move sq_eqb is_capture valid_move].

(** C7. A knight move is legal exactly when the absolute row and column
    deltas are 2 and 1 or 1 and 2. In [make_move] a knight of the player
    to move is checked by that test alone: the call reads the board only
    at the origin and the destination before it either rejects the move
    or hands it to [update_board]. *)
Theorem knight_legality_is_geometric (g : Game) (a b : string)
    (sq_from sq_to : Square) (c : Color) (x : option Piece) :
  game_state g = UNFINISHED ->
  notation_to_board_pos a = Ret sq_from ->
  notation_to_board_pos b = Ret sq_to ->
  sq_from ≠ (-1, -1) -> sq_to ≠ (-1, -1) ->
  getitem2 (board g) sq_from = Ret (Some (Knight c)) ->
  player_turn g = c ->
  getitem2 (board g) sq_to = Ret x ->
  (Knight_is_valid_move sq_from sq_to = true
   <-> (Z.abs (sq_from.1 - sq_to.1) = 2 ∧ Z.abs (sq_from.2 - sq_to.2) = 1)
       ∨ (Z.abs (sq_from.1 - sq_to.1) = 1 ∧ Z.abs (sq_from.2 - sq_to.2) = 2))
  ∧ make_move a b g
    = if Knight_is_valid_move sq_from sq_to then
        match x with
        | Some t =>
            if color_eqb c (get_color t) then (Ret false, g)
            else update_board sq_from sq_to true g
        | None => update_board sq_from sq_to false g
        end
      else (Ret false, g).
Proof.
  intros Hst Ha Hb Hf Ht Hknight Hturn Hx.
  split; [apply Knight_is_valid_move_iff|].
  apply sq_eqb_neq in Hf, Ht.
  unfold make_move, bind, gets, lift, board_get.
  rewrite Hst, Ha, Hb. knight_simpl. rewrite Hf, Ht. knight_simpl.
  rewrite Hknight. knight_simpl.
  destruct (sq_eqb sq_from sq_to) eqn:Eeq.
  { apply sq_eqb_eq in Eeq as <-.
    destruct (Knight_is_valid_move sq_from sq_from) eqn:Ek; [|done].
    apply Knight_is_valid_move_iff in Ek. lia. }
  knight_simpl. rewrite Hturn. replace (color_eqb c c) with true by (by destruct c). knight_simpl.
  destruct (Knight_is_valid_move sq_from sq_to); knight_simpl; [|done].
  unfold is_capture. destruct sq_to as [r k]. knight_simpl. rewrite Hx. knight_simpl.
  destruct x as [t|]; knight_simpl; [|done].
  by destruct (color_eqb c (get_color t)).
Qed.

Lemma knight_legality_is_geometric_witness :
  Knight_is_valid_move (7, 6) (5, 5) = true
  ∧ make_move "g1" "f3" new_game = update_board (7, 6) (5, 5) false new_game.
Proof.
  destruct (knight_legality_is_geometric new_game "g1" "f3" (7, 6) (5, 5) WHITE None)
    as [_ H]; try reflexivity; try discriminate.
  split; [reflexivity | exact H].
Defined.

(** ** The first loop of [explosion] *)

Lemma in_board_b_spec sq : in_board_b sq = true <-> in_board sq.
Proof.
  unfold in_board_b, in_board. rewrite !andb_true_iff. lia.
Qed.

Lemma scan_guard_in_board_b row col ro co :
  (row + ro <? 0) || (row + ro >? 7) || (col + co <? 0) || (col + co >? 7)
  = negb (in_board_b (row + ro, col + co)).
Proof.
  unfold in_board_b. simpl.
  destruct (row + ro <? 0) eqn:E1, (row + ro >? 7) eqn:E2,
           (col + co <? 0) eqn:E3, (col + co >? 7) eqn:E4;
  destruct (0 <=? row + ro) eqn:E5, (row + ro <=? 7) eqn:E6,
           (0 <=? col + co) eqn:E7, (col + co <=? 7) eqn:E8;
  simpl; try reflexivity; lia.
Qed.

(** On a well-shaped board the scan does not raise, leaves everything but
    the king flags as it was, never sets a flag back to true, and
    collects the occupied squares of the block. *)
Lemma explosion_scan_run row col offs acc g :
  wf_game g ->
  ∃ g', explosion_scan row col offs acc g
        = (Ret (acc ++ occupied_in (board g) row col offs), g')
    ∧ board g' = board g
    ∧ game_state g' = game_state g
    ∧ player_turn g' = player_turn g
    ∧ (ks_WHITE (king_status g') = true -> ks_WHITE (king_status g) = true)
    ∧ (ks_BLACK (king_status g') = true -> ks_BLACK (king_status g) = true).
Proof.
  revert acc g. induction offs as [|[ro co] rest IH]; intros acc g Hwf.
  { exists g. simpl. rewrite app_nil_r. by split_and!. }
  cbn [explosion_scan]. rewrite scan_guard_in_board_b.
  unfold occupied_in. cbn [map List.filter fst snd].
  fold (occupied_in (board g) row col rest).
  destruct (in_board_b (row + ro, col + co)) eqn:Ein; cbn [negb andb].
  2: { apply IH, Hwf. }
  apply in_board_b_spec in Ein.
  rewrite (bind_run _ _ _ _ _ (board_get_wf _ _ Hwf Ein)).
  destruct (cell (board g) (row + ro, col + co)) as [p|] eqn:Ecell; cbn [is_occupied].
  2: { apply IH, Hwf. }
  set (sq := (row + ro, col + co)) in *.
  assert (Hstep : ∃ g1,
    (if is_King p
     then if color_eqb (get_color p) WHITE
          then set_king_status WHITE false else set_king_status BLACK false
     else ret tt) g = (Ret tt, g1)
    ∧ board g1 = board g ∧ game_state g1 = game_state g
    ∧ player_turn g1 = player_turn g
    ∧ (ks_WHITE (king_status g1) = true -> ks_WHITE (king_status g) = true)
    ∧ (ks_BLACK (king_status g1) = true -> ks_BLACK (king_status g) = true)).
  { destruct (is_King p); [destruct (color_eqb (get_color p) WHITE)|];
      eexists; (split; [reflexivity|]); simpl; split_and!; auto; discriminate. }
  destruct Hstep as (g1 & Hrun & Hb1 & Hs1 & Ht1 & Hw1 & Hk1).
  rewrite (bind_run _ _ _ _ _ Hrun).
  assert (Hwf1 : wf_game g1) by (unfold wf_game; by rewrite Hb1).
  destruct (IH (acc ++ [sq]) g1 Hwf1) as (g' & Hrun' & Hb & Hs & Ht & Hw & Hk).
  exists g'. rewrite Hrun', Hb1, <- app_assoc. simpl.
  split_and!; auto; congruence.
Qed.

(** ** A game with both kings marked destroyed *)

Lemma preserves_marked_board_set sq x : preserves both_kings_marked (board_set sq x).
Proof.
  intros g r g' Hm. unfold board_set, bind, gets, lift, modify.
  destruct (setitem2 (board g) sq x); intros [= <- <-]; done.
Qed.

Lemma preserves_marked_set_is_first_turn self c v :
  preserves both_kings_marked (set_is_first_turn self c v).
Proof. by apply preserves_modify. Qed.

Lemma preserves_marked_update_turn : preserves both_kings_marked update_turn.
Proof. apply preserves_modify. intros g Hg. by destruct (player_turn g). Qed.

Lemma preserves_marked_set_king_status c :
  preserves both_kings_marked (set_king_status c false).
Proof.
  apply preserves_modify. intros g (Hw & Hb & Hs). by destruct c.
Qed.

#[local] Hint Resolve preserves_marked_board_set preserves_marked_set_is_first_turn
  preserves_marked_update_turn preserves_marked_set_king_status : pres.

Lemma preserves_marked_board_get sq : preserves both_kings_marked (board_get sq).
Proof. unfold board_get. pres. Qed.

#[local] Hint Resolve preserves_marked_board_get : pres.

Lemma preserves_marked_explosion_scan row col offs acc :
  preserves both_kings_marked (explosion_scan row col offs acc).
Proof.
  revert acc. induction offs as [|[ro co] rest IH]; intros acc; simpl; pres; auto.
Qed.

Lemma preserves_marked_move_piece sq_from sq_to :
  preserves both_kings_marked (move_piece sq_from sq_to).
Proof. unfold move_piece. pres. Qed.

Lemma preserves_marked_valid_move sq_from sq_to piece :
  preserves both_kings_marked (valid_move sq_from sq_to piece).
Proof. unfold valid_move, piece_move, Pawn_is_valid_move. pres. Qed.

#[local] Hint Resolve preserves_marked_explosion_scan preserves_marked_move_piece
  preserves_marked_valid_move : pres.

(** With both kings marked, [explosion] never reports success. *)
Lemma explosion_marked sq_to :
  hoare both_kings_marked (explosion sq_to)
        (fun r g' => both_kings_marked g' ∧ r ≠ Ret true).
Proof.
  intros g r g' Hm. unfold explosion. intros Hrun.
  apply bind_inv in Hrun as [(l & g1 & Hscan & Hrun)|(e & Hscan & ->)].
  - apply preserves_marked_explosion_scan in Hscan; [|done].
    unfold bind, gets in Hrun. destruct Hscan as (Hw & Hb & Hs).
    rewrite Hw, Hb in Hrun. simpl in Hrun. injection Hrun as <- <-.
    split; done.
  - apply preserves_marked_explosion_scan in Hscan; done.
Qed.

Lemma update_board_marked sq_from sq_to capture :
  hoare both_kings_marked (update_board sq_from sq_to capture)
        (fun r g' => both_kings_marked g' ∧ (capture = true -> r ≠ Ret true)).
Proof.
  intros g r g' Hm. unfold update_board. intros Hrun.
  apply bind_inv in Hrun as [(u & g1 & Hturn & Hrun)|(e & Hturn & ->)].
  2: { apply preserves_marked_update_turn in Hturn; done. }
  apply preserves_marked_update_turn in Hturn; [|done].
  destruct capture.
  - apply bind_inv in Hrun as [(ex & g2 & Hex & Hrun)|(e & Hex & ->)].
    + apply explosion_marked in Hex as [Hm2 Hr]; [|done].
      destruct ex; [done|]. injection Hrun as <- <-. done.
    + apply explosion_marked in Hex as [Hm2 Hr]; done.
  - split; [|discriminate]. revert Hrun.
    assert (Hp : preserves both_kings_marked (move_piece sq_from sq_to;; ret true))
      by pres.
    intros Hrun. eapply Hp; eauto.
Qed.

Lemma preserves_marked_update_board sq_from sq_to capture :
  preserves both_kings_marked (update_board sq_from sq_to capture).
Proof.
  intros g r g' Hm Hrun. by apply update_board_marked in Hrun as [? _].
Qed.

#[local] Hint Resolve preserves_marked_update_board : pres.

Lemma preserves_marked_make_move a b : preserves both_kings_marked (make_move a b).
Proof. unfold make_move. pres. Qed.

Lemma play_marked moves g : both_kings_marked g -> both_kings_marked (play moves g).
Proof.
  revert g. induction moves as [|[a b] rest IH]; intros g Hg; [done|].
  apply IH. simpl. destruct (make_move a b g) as [r g'] eqn:E.
  eapply preserves_marked_make_move; eauto.
Qed.

Lemma update_board_capture_vetoed sq_from sq_to g :
  wf_game g -> both_kings_marked g ->
  (update_board sq_from sq_to true g).1 = Ret false.
Proof.
  intros Hwf (Hw & Hb & Hs). unfold update_board.
  rewrite (bind_run _ _ _ _ _ (update_turn_run g)).
  set (g1 := with_player_turn g (opponent (player_turn g))).
  assert (Hwf1 : wf_game g1) by done.
  unfold explosion.
  destruct (explosion_scan_run (sq_to.1 - 1) (sq_to.2 - 1) offsets [] g1 Hwf1)
    as (g2 & Hscan & _ & _ & _ & Hw2 & Hb2).
  simpl in Hw2, Hb2.
  unfold bind at 1. unfold bind at 1. rewrite Hscan.
  unfold bind, gets.
  destruct (ks_WHITE (king_status g2)); [by rewrite Hw in Hw2; specialize (Hw2 eq_refl)|].
  destruct (ks_BLACK (king_status g2)); [by rewrite Hb in Hb2; specialize (Hb2 eq_refl)|].
  reflexivity.
Qed.

(** C9. From a reachable game in which both king flags are false and the
    game is unfinished, whatever calls follow: both flags stay false and
    the game stays unfinished; [update_board] answers every capture with
    [False]; and every call of [make_move] that is accepted moved onto an
    empty square. *)
Theorem no_capture_once_both_kings_marked (g : Game) (moves : list (string * string)) :
  reachable g ->
  both_kings_marked g ->
  both_kings_marked (play moves g)
  ∧ (∀ sq_from sq_to,
       (update_board sq_from sq_to true (play moves g)).1 = Ret false)
  ∧ (∀ a b g'',
       make_move a b (play moves g) = (Ret true, g'') ->
       ∃ sq_to, notation_to_board_pos b = Ret sq_to
                ∧ getitem2 (board (play moves g)) sq_to = Ret None).
Proof.
  intros Hreach Hmarked.
  pose proof (play_marked moves g Hmarked) as Hm.
  pose proof (reachable_wf _ (reachable_play moves g Hreach)) as Hwf.
  set (g' := play moves g) in *.
  split_and!; [done | |].
  - intros sq_from sq_to. by apply update_board_capture_vetoed.
  - intros a b g'' Hmove.
    apply make_move_accepted in Hmove
      as (f & t & piece & g1 & capture & x & Hst & Ha & Hb & Hf1 & Ht1 & Hne
          & Hpiece & Hcolor & Heff & Hx & Hocc & Hupd).
    exists t. split; [done|].
    assert (Hfrom : in_board f) by (eapply parsed_square_in_board; eauto).
    pose proof (getitem2_cell _ _ _ Hwf Hfrom Hpiece) as Hcp.
    destruct (flag_effect_facts _ _ _ _ Hwf Hfrom Hcp Heff)
      as (Hwf1 & Hst1 & Hturn1 & Hks1 & _ & Hframe).
    assert (Hto : in_board t) by (eapply parsed_square_in_board; eauto).
    assert (Hm1 : both_kings_marked g1).
    { destruct Hm as (Hw & Hk & Hs). unfold both_kings_marked.
      rewrite Hks1, Hst1. done. }
    apply update_board_marked in Hupd as [_ Hcap]; [|done].
    destruct capture; [by specialize (Hcap eq_refl)|].
    destruct x; [discriminate|].
    apply (getitem2_cell _ _ _ Hwf1 Hto) in Hx.
    rewrite getitem2_wf by done. f_equal.
    rewrite <- Hframe by auto. done.
Qed.

Lemma no_capture_once_both_kings_marked_witness :
  both_kings_marked vetoed_game
  ∧ both_kings_marked (play [("a6", "a5"); ("d4", "d5")]%string vetoed_game)
  ∧ (update_board (4, 3) (3, 3) true
       (play [("a6", "a5"); ("d4", "d5")]%string vetoed_game)).1 = Ret false.
Proof.
  assert (Hm : both_kings_marked vetoed_game) by (vm_compute; auto).
  assert (Hr : reachable vetoed_game).
  { apply reachable_move. apply reachable_play. apply reachable_new. }
  destruct (no_capture_once_both_kings_marked vetoed_game
              [("a6", "a5"); ("d4", "d5")]%string Hr Hm) as (H1 & H2 & _).
  split_and!; [exact Hm | exact H1 | apply H2].
Defined.

(** ** Captures that are applied *)

(** The second loop of [explosion] on a well-shaped board: it empties the
    listed squares that do not hold a pawn and touches nothing else. *)
Lemma explode_all_run l g :
  wf_game g -> Forall in_board l ->
  ∃ g', explode_all l g = (Ret tt, g')
    ∧ wf_game g'
    ∧ game_state g' = game_state g
    ∧ player_turn g' = player_turn g
    ∧ king_status g' = king_status g
    ∧ (∀ sq, in_board sq -> In sq l -> cell_is_Pawn (cell (board g) sq) = false ->
             cell (board g') sq = None)
    ∧ (∀ sq, in_board sq -> cell_is_Pawn (cell (board g) sq) = true ->
             cell (board g') sq = cell (board g) sq)
    ∧ (∀ sq, in_board sq -> ¬ In sq l -> cell (board g') sq = cell (board g) sq)
    ∧ (∀ sq, in_board sq -> cell (board g) sq = None -> cell (board g') sq = None).
Proof.
  revert g. induction l as [|item rest IH]; intros g Hwf Hl.
  { exists g. split_and!; auto. intros sq _ []. }
  apply Forall_cons in Hl as [Hitem Hrest].
  cbn [explode_all].
  rewrite (bind_run _ _ _ _ _ (board_get_wf _ _ Hwf Hitem)).
  destruct (cell_is_Pawn (cell (board g) item)) eqn:Epawn.
  - rewrite (bind_run _ _ _ tt g) by reflexivity.
    destruct (IH g Hwf Hrest) as (g' & Hrun & Hwf' & Hs & Ht & Hk & H1 & H2 & H3 & H4).
    exists g'. split_and!; auto.
    + intros sq Hsq [<-|Hin] Hnp; [congruence | auto].
    + intros sq Hsq Hnin. apply H3; [done|]. intros Hin. apply Hnin. by right.
  - rewrite (bind_run _ _ _ _ _ (board_set_wf _ _ _ Hwf Hitem)).
    set (g1 := with_board g (store (board g) item None)).
    assert (Hwf1 : wf_game g1) by (by apply wf_store).
    destruct (IH g1 Hwf1 Hrest) as (g' & Hrun & Hwf' & Hs & Ht & Hk & H1 & H2 & H3 & H4).
    unfold g1 in *. cbn [board with_board] in H1, H2, H3, H4.
    exists g'. split_and!; auto.
    + intros sq Hsq Hin Hnp. destruct (decide (sq = item)) as [->|Hne].
      * apply H4; [done|]. by apply cell_store_eq.
      * destruct Hin as [<-|Hin]; [done|].
        apply H1; [done | done |]. by rewrite cell_store_ne.
    + intros sq Hsq Hp.
      assert (Hne : item ≠ sq) by (intros ->; congruence).
      rewrite H2; [by rewrite cell_store_ne | done | by rewrite cell_store_ne].
    + intros sq Hsq Hnin.
      assert (Hne : item ≠ sq) by (intros ->; apply Hnin; by left).
      rewrite H3; [by rewrite cell_store_ne | done |].
      intros Hin. apply Hnin. by right.
    + intros sq Hsq Hnone. apply H4; [done|].
      destruct (decide (item = sq)) as [->|Hne];
        [by apply cell_store_eq | by rewrite cell_store_ne].
Qed.

Lemma occupied_in_in_board b row col offs : Forall in_board (occupied_in b row col offs).
Proof.
  apply List.Forall_forall. intros sq Hin.
  apply filter_In in Hin as [_ Hin]. apply andb_true_iff in Hin as [Hin _].
  by apply in_board_b_spec.
Qed.

Lemma offsets_spec off : In off offsets <-> 0 <= off.1 <= 2 ∧ 0 <= off.2 <= 2.
Proof.
  destruct off as [ro co]. simpl. split.
  - intros H. vm_compute in H.
    repeat (destruct H as [H|H]; [injection H as <- <-; lia|]). done.
  - intros [H1 H2].
    assert (ro = 0 ∨ ro = 1 ∨ ro = 2) as [->|[->| ->]] by lia;
    assert (co = 0 ∨ co = 1 ∨ co = 2) as [->|[->| ->]] by lia;
    vm_compute; tauto.
Qed.

(** The scan collects exactly the occupied squares of the 3x3 block that
    lie on the board. *)
Lemma occupied_in_spec b sq_to sq :
  In sq (occupied_in b (sq_to.1 - 1) (sq_to.2 - 1) offsets)
  <-> in_board sq ∧ in_blast sq_to sq ∧ is_occupied (cell b sq) = true.
Proof.
  unfold occupied_in. rewrite filter_In, in_map_iff, andb_true_iff, in_board_b_spec.
  unfold in_blast. split.
  - intros [(off & <- & Hoff) [Hin Hocc]]. apply offsets_spec in Hoff.
    split_and!; simpl in *; auto; lia.
  - intros (Hin & [H1 H2] & Hocc). split; [|done].
    exists (sq.1 - (sq_to.1 - 1), sq.2 - (sq_to.2 - 1)). split.
    + destruct sq as [r c]. simpl. f_equal; lia.
    + apply offsets_spec. simpl. lia.
Qed.

Lemma in_blast_centre sq_to : in_blast sq_to sq_to.
Proof. unfold in_blast. lia. Qed.

(** When [explosion] reports success: the destination square is empty,
    every other square of the 3x3 block that did not hold a pawn is
    empty, and all remaining squares are as they were. *)
Lemma explosion_applied sq_to g g' :
  wf_game g -> in_board sq_to ->
  explosion sq_to g = (Ret true, g') ->
  wf_game g'
  ∧ game_state g' = game_state g
  ∧ player_turn g' = player_turn g
  ∧ cell (board g') sq_to = None
  ∧ (∀ sq, in_board sq -> sq ≠ sq_to ->
           cell_is_Pawn (cell (board g) sq) = true ->
           cell (board g') sq = cell (board g) sq)
  ∧ (∀ sq, in_board sq -> in_blast sq_to sq ->
           cell_is_Pawn (cell (board g) sq) = false ->
           cell (board g') sq = None)
  ∧ (∀ sq, in_board sq -> ¬ in_blast sq_to sq ->
           cell (board g') sq = cell (board g) sq).
Proof.
  intros Hwf Hto. unfold explosion.
  destruct (explosion_scan_run (sq_to.1 - 1) (sq_to.2 - 1) offsets [] g Hwf)
    as (g2 & Hscan & Hb2 & Hs2 & Ht2 & _ & _).
  rewrite (bind_run _ _ _ _ _ Hscan). cbn [app].
  set (l := occupied_in (board g) (sq_to.1 - 1) (sq_to.2 - 1) offsets) in *.
  rewrite (bind_run _ _ _ (king_status g2) g2) by reflexivity.
  destruct (negb _ && negb _); [discriminate|].
  assert (Hwf2 : wf_game g2) by (unfold wf_game; by rewrite Hb2).
  rewrite (bind_run _ _ _ _ _ (board_get_wf _ _ Hwf2 Hto)).
  rewrite Hb2.
  assert (Hl : Forall in_board l) by apply occupied_in_in_board.
  assert (Hout : ∀ sq, ¬ in_blast sq_to sq -> ¬ In sq l).
  { intros sq Hnb Hin. apply occupied_in_spec in Hin. tauto. }
  assert (Hin : ∀ sq b, in_board sq -> in_blast sq_to sq ->
                        cell (board g) sq = Some b -> In sq l).
  { intros sq b Hsq Hb Hc. apply occupied_in_spec. by rewrite Hc. }
  destruct (cell_is_Pawn (cell (board g) sq_to)) eqn:Epawn.
  - rewrite (bind_run _ _ _ _ _ (board_set_wf _ _ _ Hwf2 Hto)).
    set (g3 := with_board g2 (store (board g2) sq_to None)).
    assert (Hwf3 : wf_game g3) by (by apply wf_store).
    destruct (explode_all_run l g3 Hwf3 Hl)
      as (g4 & Hrun & Hwf4 & Hs4 & Ht4 & _ & H1 & H2 & H3 & H4).
    rewrite (bind_run _ _ _ _ _ Hrun). intros [= <-].
    unfold g3 in *. cbn [board with_board game_state player_turn] in *.
    rewrite Hb2 in H1, H2, H3, H4.
    split_and!; [done | congruence | congruence | | | |].
    + apply H4; [done|]. by apply cell_store_eq.
    + intros sq Hsq Hne Hp.
      rewrite H2; [by rewrite cell_store_ne | done | by rewrite cell_store_ne].
    + intros sq Hsq Hb Hnp.
      destruct (decide (sq_to = sq)) as [->|Hne]; [congruence|].
      destruct (cell (board g) sq) as [p|] eqn:Ecell.
      * apply H1; [done | eauto | by rewrite cell_store_ne, Ecell].
      * apply H4; [done | by rewrite cell_store_ne].
    + intros sq Hsq Hnb.
      assert (Hne : sq_to ≠ sq) by (intros ->; apply Hnb, in_blast_centre).
      rewrite H3; [by rewrite cell_store_ne | done | auto].
  - rewrite (bind_run _ _ _ tt g2) by reflexivity.
    destruct (explode_all_run l g2 Hwf2 Hl)
      as (g4 & Hrun & Hwf4 & Hs4 & Ht4 & _ & H1 & H2 & H3 & H4).
    rewrite (bind_run _ _ _ _ _ Hrun). intros [= <-].
    rewrite Hb2 in H1, H2, H3, H4.
    assert (Hnp : ∀ sq, in_board sq -> in_blast sq_to sq ->
                        cell_is_Pawn (cell (board g) sq) = false ->
                        cell (board g4) sq = None).
    { intros sq Hsq Hb Hnp.
      destruct (cell (board g) sq) as [p|] eqn:Ecell.
      - apply H1; [done | eauto | by rewrite Ecell].
      - by apply H4. }
    split_and!; [done | congruence | congruence | | | done |].
    + apply Hnp; [done | apply in_blast_centre | done].
    + intros sq Hsq Hne Hp. by apply H2.
    + intros sq Hsq Hnb. apply H3; auto.
Qed.

Lemma update_win_run g :
  ∃ g', update_win g = (Ret tt, g')
    ∧ board g' = board g
    ∧ player_turn g' = player_turn g
    ∧ king_status g' = king_status g
    ∧ game_state g'
      = if negb (ks_WHITE (king_status g)) then BLACK_WON
        else if negb (ks_BLACK (king_status g)) then WHITE_WON
        else game_state g.
Proof.
  unfold update_win, bind, gets, modify, ret.
  destruct (ks_WHITE (king_status g)), (ks_BLACK (king_status g));
    eexists; (split; [reflexivity|]); by split_and!.
Qed.

(** A capture that [update_board] applies: the origin and the destination
    are emptied, so is every square of the 3x3 block around the
    destination that did not hold a pawn; every other square is as it
    was; the turn passes, and the game is won by the side whose king flag
    is still set when the other one is not. *)
Lemma update_board_capture_applied sq_from sq_to g g' :
  wf_game g -> in_board sq_from -> in_board sq_to ->
  update_board sq_from sq_to true g = (Ret true, g') ->
  cell (board g') sq_from = None
  ∧ cell (board g') sq_to = None
  ∧ (∀ sq, in_board sq -> sq ≠ sq_from -> sq ≠ sq_to ->
           cell_is_Pawn (cell (board g) sq) = true ->
           cell (board g') sq = cell (board g) sq)
  ∧ (∀ sq, in_board sq -> in_blast sq_to sq ->
           cell_is_Pawn (cell (board g) sq) = false ->
           cell (board g') sq = None)
  ∧ (∀ sq, in_board sq -> sq ≠ sq_from -> ¬ in_blast sq_to sq ->
           cell (board g') sq = cell (board g) sq)
  ∧ player_turn g' = opponent (player_turn g)
  ∧ game_state g'
    = if negb (ks_WHITE (king_status g')) then BLACK_WON
      else if negb (ks_BLACK (king_status g')) then WHITE_WON
      else game_state g.
Proof.
  intros Hwf Hfrom Hto. unfold update_board.
  rewrite (bind_run _ _ _ _ _ (update_turn_run g)).
  set (g1 := with_player_turn g (opponent (player_turn g))).
  assert (Hwf1 : wf_game g1) by done.
  intros Hrun. apply bind_ret_inv in Hrun as (ex & g2 & Hex & Hrun).
  destruct ex; [|discriminate]. cbn [negb] in Hrun.
  apply explosion_applied in Hex
    as (Hwf2 & Hs2 & Ht2 & Hcto & Hpawns & Hblast & Hout); [|done..].
  rewrite (bind_run _ _ _ _ _ (board_set_wf _ _ _ Hwf2 Hfrom)) in Hrun.
  set (g3 := with_board g2 (store (board g2) sq_from None)) in *.
  destruct (update_win_run g3) as (g4 & Hwin & Hb4 & Ht4 & Hk4 & Hs4).
  rewrite (bind_run _ _ _ _ _ Hwin) in Hrun. injection Hrun as <-.
  rewrite Hb4, Ht4, Hs4, Hk4. unfold g3, g1 in *.
  cbn [board with_board with_player_turn game_state player_turn king_status] in *.
  assert (Hcell : ∀ sq, in_board sq -> cell (board g2) sq = None ->
                        cell (store (board g2) sq_from None) sq = None).
  { intros sq Hsq Hnone. destruct (decide (sq_from = sq)) as [->|Hne];
      [by apply cell_store_eq | by rewrite cell_store_ne]. }
  split_and!.
  - by apply cell_store_eq.
  - by apply Hcell.
  - intros sq Hsq Hn1 Hn2 Hp. rewrite cell_store_ne by done. by apply Hpawns.
  - intros sq Hsq Hb Hnp. apply Hcell; [done|]. by apply Hblast.
  - intros sq Hsq Hn Hnb. rewrite cell_store_ne by done. by apply Hout.
  - done.
  - by rewrite Hs2.
Qed.

(** C4, amended. An accepted move onto an occupied square empties the
    origin (the capturing piece is removed, pawn or not) and the
    destination (the captured piece is removed, pawn or not); every pawn
    on any other square stays where it was. *)
Theorem capture_spares_other_pawns (g g' : Game) (a b : string)
    (sq_from sq_to : Square) (t : Piece) :
  wf_game g ->
  make_move a b g = (Ret true, g') ->
  notation_to_board_pos a = Ret sq_from ->
  notation_to_board_pos b = Ret sq_to ->
  getitem2 (board g) sq_to = Ret (Some t) ->
  getitem2 (board g') sq_from = Ret None
  ∧ getitem2 (board g') sq_to = Ret None
  ∧ (∀ sq c f, in_board sq -> sq ≠ sq_from -> sq ≠ sq_to ->
               getitem2 (board g) sq = Ret (Some (Pawn c f)) ->
               getitem2 (board g') sq = Ret (Some (Pawn c f))).
Proof.
  intros Hwf Hmove Ha Hb Htarget.
  pose proof (preserves_wf_make_move a b g _ _ Hwf Hmove) as Hwf'.
  apply make_move_accepted in Hmove
    as (f & t' & piece & g1 & capture & x & Hst & Ha' & Hb' & Hf1 & Ht1 & Hne
        & Hpiece & Hcolor & Heff & Hx & Hocc & Hupd).
  rewrite Ha in Ha'. injection Ha' as <-.
  rewrite Hb in Hb'. injection Hb' as <-.
  assert (Hfrom : in_board sq_from) by (eapply parsed_square_in_board; eauto).
  assert (Hto : in_board sq_to) by (eapply parsed_square_in_board; eauto).
  pose proof (getitem2_cell _ _ _ Hwf Hfrom Hpiece) as Hcp.
  destruct (flag_effect_facts _ _ _ _ Hwf Hfrom Hcp Heff)
    as (Hwf1 & _ & _ & _ & _ & Hframe).
  assert (x = Some t) as ->.
  { apply (getitem2_cell _ _ _ Hwf1 Hto) in Hx.
    rewrite Hframe in Hx by auto.
    apply (getitem2_cell _ _ _ Hwf Hto) in Htarget. congruence. }
  simpl in Hocc. subst capture.
  apply update_board_capture_applied in Hupd as (H1 & H2 & H3 & _); [|done..].
  split_and!.
  - rewrite getitem2_wf by done. by f_equal.
  - rewrite getitem2_wf by done. by f_equal.
  - intros sq c fl Hsq Hn1 Hn2 Hget.
    apply (getitem2_cell _ _ _ Hwf Hsq) in Hget.
    rewrite getitem2_wf by done. f_equal.
    rewrite H3; auto; rewrite Hframe by auto; by rewrite Hget.
Qed.

Lemma capture_spares_other_pawns_witness :
  wf_game pawn_takes_pawn_game
  ∧ getitem2 (board pawn_takes_pawn_game) (3, 3) = Ret (Some (Pawn BLACK false))
  ∧ getitem2 (board (make_move "e4" "d5" pawn_takes_pawn_game).2) (4, 4) = Ret None
  ∧ getitem2 (board (make_move "e4" "d5" pawn_takes_pawn_game).2) (3, 3) = Ret None
  ∧ getitem2 (board (make_move "e4" "d5" pawn_takes_pawn_game).2) (1, 4)
    = Ret (Some (Pawn BLACK true)).
Proof.
  assert (H1 : wf_game pawn_takes_pawn_game)
    by (split; [reflexivity | vm_compute; repeat constructor]).
  assert (H2 : make_move "e4" "d5" pawn_takes_pawn_game
               = (Ret true, (make_move "e4" "d5" pawn_takes_pawn_game).2))
    by (vm_compute; reflexivity).
  assert (H3 : getitem2 (board pawn_takes_pawn_game) (3, 3)
               = Ret (Some (Pawn BLACK false))) by (vm_compute; reflexivity).
  destruct (capture_spares_other_pawns pawn_takes_pawn_game
              (make_move "e4" "d5" pawn_takes_pawn_game).2
              "e4" "d5" (4, 4) (3, 3) (Pawn BLACK false) H1 H2 eq_refl eq_refl H3)
    as (Ha & Hb & Hc).
  split_and!; [exact H1 | exact H3 | exact Ha | exact Hb |].
  apply Hc.
  - split; simpl; lia.
  - discriminate.
  - discriminate.
  - vm_compute; reflexivity.
Defined.

(** ** Captures that are vetoed *)

(** When [explosion] answers [False] the board is as it was, and both
    king flags are false. *)
Lemma explosion_vetoed sq_to g g' :
  wf_game g ->
  explosion sq_to g = (Ret false, g') ->
  board g' = board g
  ∧ game_state g' = game_state g
  ∧ player_turn g' = player_turn g
  ∧ ks_WHITE (king_status g') = false
  ∧ ks_BLACK (king_status g') = false.
Proof.
  intros Hwf. unfold explosion.
  destruct (explosion_scan_run (sq_to.1 - 1) (sq_to.2 - 1) offsets [] g Hwf)
    as (g2 & Hscan & Hb2 & Hs2 & Ht2 & _ & _).
  rewrite (bind_run _ _ _ _ _ Hscan).
  rewrite (bind_run _ _ _ (king_status g2) g2) by reflexivity.
  destruct (negb (ks_WHITE (king_status g2)) && negb (ks_BLACK (king_status g2)))
    eqn:Eboth.
  - intros [= <-]. apply andb_true_iff in Eboth as [Hw Hk].
    apply negb_true_iff in Hw, Hk. by split_and!.
  - intros H.
    apply bind_ret_inv in H as (x & g3 & _ & H).
    apply bind_ret_inv in H as (u & g4 & _ & H).
    apply bind_ret_inv in H as (v & g5 & _ & H).
    discriminate.
Qed.

(** Every vetoed capture leaves the board and the game state as they
    were, but has passed the turn and left both king flags false. *)
Lemma update_board_vetoed sq_from sq_to g g' :
  wf_game g ->
  update_board sq_from sq_to true g = (Ret false, g') ->
  board g' = board g
  ∧ game_state g' = game_state g
  ∧ player_turn g' = opponent (player_turn g)
  ∧ ks_WHITE (king_status g') = false
  ∧ ks_BLACK (king_status g') = false.
Proof.
  intros Hwf. unfold update_board.
  rewrite (bind_run _ _ _ _ _ (update_turn_run g)).
  intros H. apply bind_ret_inv in H as (ex & g2 & Hex & H).
  destruct ex; cbn [negb] in H.
  - apply bind_ret_inv in H as (u & g3 & _ & H).
    apply bind_ret_inv in H as (v & g4 & _ & H).
    discriminate.
  - injection H as <-. by apply explosion_vetoed in Hex.
Qed.

(** ** Kings *)

Lemma range_empty a : range a a = [].
Proof. unfold range. by rewrite Z.sub_diag. Qed.

(** A king's step to the right never passes [valid_move]: the distance of
    a move along a row is computed without [abs]. *)
Lemma king_step_right_rejected (g : Game) (r c : Z) (col : Color) :
  valid_move (r, c) (r, c + 1) (King col) g = (Ret VFalse, g).
Proof.
  unfold valid_move, move_direction. cbn [fst snd is_Pawn andb].
  rewrite Z.eqb_refl. cbn [orb andb]. rewrite !andb_false_r.
  cbn [direction_eqb andb]. unfold piece_move, bind.
  replace (c - (c + 1) =? 1) with false by (symmetry; apply Z.eqb_neq; lia).
  reflexivity.
Qed.

(** The mirror step to the left passes it. *)
Lemma king_step_left_accepted (g : Game) (r c : Z) (col : Color) :
  valid_move (r, c) (r, c - 1) (King col) g = (Ret VTrue, g).
Proof.
  unfold valid_move, move_direction. cbn [fst snd is_Pawn andb].
  rewrite Z.eqb_refl. cbn [orb andb]. rewrite !andb_false_r.
  cbn [direction_eqb andb]. unfold piece_move, bind.
  replace (c - (c - 1) =? 1) with true by (symmetry; apply Z.eqb_eq; lia).
  cbn [ret gets is_Queen is_King orb andb direction_eqb].
  unfold clear_path_straight, lift. cbn [fst snd].
  rewrite Z.sub_diag. cbn [Z.gtb Z.ltb Z.compare].
  replace (c - (c - 1) >? 0) with true by (symmetry; apply Z.gtb_lt; lia).
  replace (c - 1 + 1) with c by lia. rewrite range_empty. reflexivity.
Qed.

(** * Further properties of the engine *)

(** ** Algebraic notation *)

Lemma letter_to_num_keys :
  map_Forall (fun k v => k = 97 + v ∧ 0 <= v <= 7) letter_to_num.
Proof. apply (bool_decide_unpack _). by vm_compute. Qed.

Lemma int_code c n : int c = Ret n -> code c = 48 + n ∧ 0 <= n <= 9.
Proof.
  unfold int, code. destruct (_ && _) eqn:E; [|discriminate].
  intros [= <-]. apply andb_true_iff in E as [E1 E2]. lia.
Qed.

Lemma string_length_two c0 c1 s :
  (Z.of_nat (String.length (String c0 (String c1 s))) <? 2)
  || (Z.of_nat (String.length (String c0 (String c1 s))) >? 2) = false ->
  s = EmptyString.
Proof.
  destruct s; [done|]. intros H. apply orb_false_iff in H as [_ H].
  cbn [String.length] in H. rewrite Z.gtb_ltb in H. apply Z.ltb_ge in H.
  exfalso. lia.
Qed.

(** X1. Every square of the board is what [notation_to_board_pos] makes of
    its notation: file letter a-h for the column, rank digit 8-1 for the
    row. *)
Theorem notation_round_trip (sq : Square) :
  in_board sq -> notation_to_board_pos (notation_of_square sq) = Ret sq.
Proof.
  destruct sq as [r c]. intros [Hr Hc]. simpl in Hr, Hc.
  assert (r = 0 ∨ r = 1 ∨ r = 2 ∨ r = 3 ∨ r = 4 ∨ r = 5 ∨ r = 6 ∨ r = 7)
    as Hrow by lia.
  assert (c = 0 ∨ c = 1 ∨ c = 2 ∨ c = 3 ∨ c = 4 ∨ c = 5 ∨ c = 6 ∨ c = 7)
    as Hcol by lia.
  destruct Hrow as [->|[->|[->|[->|[->|[->|[->| ->]]]]]]];
  destruct Hcol as [->|[->|[->|[->|[->|[->|[->| ->]]]]]]];
  reflexivity.
Qed.

Lemma notation_round_trip_witness :
  notation_of_square (6, 4) = "e2"%string
  ∧ notation_to_board_pos "e2" = Ret (6, 4).
Proof.
  split; [reflexivity|].
  apply (notation_round_trip (6, 4)). unfold in_board. simpl. lia.
Defined.

(** X2. What parses to a square is a two-character string: a letter whose
    lower case is the file letter of the column, and the digit of the
    rank, 8 minus the row; the digit 0 gives row 8, which is off the
    board. *)
Theorem notation_to_board_pos_inv (s : string) (sq : Square) :
  notation_to_board_pos s = Ret sq ->
  sq ≠ (-1, -1) ->
  ∃ c0 c1, s = String c0 (String c1 EmptyString)
           ∧ lower c0 = 97 + sq.2
           ∧ code c1 = 56 - sq.1
           ∧ 0 <= sq.1 <= 8 ∧ 0 <= sq.2 <= 7.
Proof.
  unfold notation_to_board_pos.
  destruct (_ || _) eqn:Elen; [by intros [= <-]|].
  destruct s as [|c0 [|c1 s]]; try discriminate.
  apply string_length_two in Elen as ->.
  destruct (negb (isalpha c0)); [by intros [= <-]|].
  destruct (negb (isnumeric c1)); [by intros [= <-]|].
  destruct (int c1) as [n|e] eqn:En; [simpl|discriminate].
  apply int_code in En as [Hcode Hn].
  destruct ((n <? 0) || (n >? 8)) eqn:E; [by intros [= <-]|].
  apply orb_false_iff in E as [E1 E2]. rewrite Z.gtb_ltb in E2.
  apply Z.ltb_ge in E1, E2.
  destruct (letter_to_num !! lower c0) as [col|] eqn:Ec; [|by intros [= <-]].
  intros [= <-] _. apply letter_to_num_keys in Ec as [Hk Hv].
  exists c0, c1. simpl. split_and!; auto; lia.
Qed.

Lemma notation_to_board_pos_inv_witness :
  ∃ c0 c1, "E2"%string = String c0 (String c1 EmptyString)
           ∧ lower c0 = 97 + 4 ∧ code c1 = 56 - 6
           ∧ 0 <= 6 <= 8 ∧ 0 <= 4 <= 7.
Proof.
  apply (notation_to_board_pos_inv "E2" (6, 4)); [reflexivity | discriminate].
Defined.

(** X3. [notation_to_board_pos] raises nothing but [ValueError], and only for
    a letter followed by a numeric character that is not a decimal digit
    (a superscript digit or a fraction), which [int] does not convert. *)
Theorem notation_to_board_pos_raises (s : string) (e : Exn) :
  notation_to_board_pos s = Raise e ->
  e = ValueError
  ∧ ∃ c0 c1, s = String c0 (String c1 EmptyString)
             ∧ isalpha c0 = true ∧ isnumeric c1 = true
             ∧ ¬ (48 <= code c1 <= 57).
Proof.
  unfold notation_to_board_pos.
  destruct (_ || _) eqn:Elen; [discriminate|].
  destruct s as [|c0 [|c1 s]].
  { simpl in Elen. discriminate. }
  { simpl in Elen. discriminate. }
  apply string_length_two in Elen as ->.
  destruct (isalpha c0) eqn:Ea; [|discriminate].
  destruct (isnumeric c1) eqn:En; [|discriminate]. cbn [negb].
  unfold int. fold (code c1).
  destruct ((48 <=? code c1) && (code c1 <=? 57)) eqn:Ed.
  { simpl. repeat case_match; discriminate. }
  simpl. intros [= <-]. split; [done|].
  exists c0, c1. split_and!; auto.
  apply andb_false_iff in Ed. lia.
Qed.

Lemma notation_to_board_pos_raises_witness :
  notation_to_board_pos (String "a" (String (ascii_of_N 178) EmptyString))
  = Raise ValueError
  ∧ ∃ c0 c1, String "a" (String (ascii_of_N 178) EmptyString)
             = String c0 (String c1 EmptyString)
             ∧ isalpha c0 = true ∧ isnumeric c1 = true
             ∧ ¬ (48 <= code c1 <= 57).
Proof.
  split; [reflexivity|].
  apply (notation_to_board_pos_raises _ ValueError). reflexivity.
Defined.

(** ** The course of a call of [make_move] *)

Lemma pawn_capture_true b sq_from sq_to color :
  pawn_capture b sq_from sq_to color = Ret true ->
  ∃ t, getitem2 b sq_to = Ret (Some t) ∧ color_eqb color (get_color t) = false.
Proof.
  unfold pawn_capture.
  match goal with |- res_bind ?m _ = _ -> _ => destruct m as [[|]|] end;
    simpl; try discriminate.
  destruct (getitem2 b sq_to) as [[t|]|]; simpl; try discriminate.
  destruct (color_eqb color (get_color t)) eqn:E; [discriminate|]. eauto.
Qed.

Lemma piece_move_pawn_capture self direction distance piece g g1 :
  piece_move self direction distance piece g = (Ret PAWN_CAPTURE, g1) ->
  is_Pawn piece = true.
Proof.
  unfold piece_move. destruct piece; try done;
    repeat case_match; discriminate.
Qed.

Lemma valid_move_pawn_capture_strong sq_from sq_to piece g g1 :
  valid_move sq_from sq_to piece g = (Ret PAWN_CAPTURE, g1) ->
  is_Pawn piece = true
  ∧ ∃ t, getitem2 (board g1) sq_to = Ret (Some t)
         ∧ color_eqb (get_color piece) (get_color t) = false.
Proof.
  unfold valid_move.
  destruct (direction_eqb _ NoDirection); [discriminate|].
  intros H. apply bind_ret_inv in H as (v & g2 & Hpm & H).
  destruct v; try discriminate.
  - unfold bind, gets, lift, ret in H.
    pose proof (clear_path_pawn_not_pawn_capture (board g2) sq_from sq_to).
    repeat case_match; simplify_eq;
      match goal with
      | H : of_bool _ = PAWN_CAPTURE |- _ => by apply of_bool_not_pawn_capture in H
      | _ => idtac
      end.
  - apply piece_move_pawn_capture in Hpm. split; [done|].
    unfold bind, gets, lift, ret in H.
    destruct (pawn_capture (board g2) sq_from sq_to (get_color piece))
      as [[|]|] eqn:E; simplify_eq.
    by apply pawn_capture_true in E.
Qed.

Lemma is_capture_inv b sq_from sq_to piece c :
  is_capture b sq_from sq_to piece = Ret (CBool c) ->
  ∃ x, getitem2 b sq_to = Ret x ∧ is_occupied x = c
       ∧ (c = true ->
          is_King piece = false
          ∧ ∃ t, x = Some t ∧ color_eqb (get_color piece) (get_color t) = false).
Proof.
  unfold is_capture. destruct sq_to as [r k]. simpl.
  destruct (getitem2 b (r, k)) as [[t|]|]; simpl; try discriminate.
  - destruct (color_eqb (get_color piece) (get_color t)) eqn:Ec; [discriminate|].
    destruct (is_King piece) eqn:Ek; [discriminate|].
    intros [= <-]. exists (Some t). split_and!; eauto.
  - intros [= <-]. exists None. split_and!; auto. discriminate.
Qed.

Lemma validity_effect sq_from sq_to piece g :
  hoare (fun g0 => g0 = g) (validity sq_from sq_to piece)
        (fun _ g1 => flag_effect sq_from piece g g1).
Proof.
  unfold validity. destruct (is_Knight piece).
  - apply hoare_ret. intros ? ->. apply flag_effect_refl.
  - apply valid_move_effect.
Qed.

(** Every call of [make_move] either ends before the move is checked,
    with the game object untouched, or checks the move (which can only
    clear the first-turn attribute of the pawn on the origin) and then
    either ends there or goes through [update_board]. *)
Lemma make_move_inv a b g r g' :
  make_move a b g = (r, g') ->
  (r ≠ Ret true ∧ g' = g)
  ∨ ∃ sq_from sq_to piece g1,
      game_state g = UNFINISHED
      ∧ notation_to_board_pos a = Ret sq_from
      ∧ notation_to_board_pos b = Ret sq_to
      ∧ sq_from ≠ (-1, -1) ∧ sq_to ≠ (-1, -1) ∧ sq_from ≠ sq_to
      ∧ getitem2 (board g) sq_from = Ret (Some piece)
      ∧ get_color piece = player_turn g
      ∧ flag_effect sq_from piece g g1
      ∧ ((r ≠ Ret true ∧ g' = g1)
         ∨ ∃ valid capture x,
             validity sq_from sq_to piece g = (Ret valid, g1)
             ∧ getitem2 (board g1) sq_to = Ret x ∧ is_occupied x = capture
             ∧ (valid = VTrue ∨ (valid = PAWN_CAPTURE ∧ capture = true))
             ∧ (capture = true ->
                is_King piece = false
                ∧ ∃ t, x = Some t
                       ∧ color_eqb (get_color piece) (get_color t) = false)
             ∧ update_board sq_from sq_to capture g1 = (r, g')).
Proof.
  unfold make_move. intros H.
  apply bind_inv in H as [(st & g0 & [= <- <-] & H)|(e & [=] & _)].
  destruct (game_state g) eqn:Est; simpl in H;
    try (injection H as <- <-; left; split; [discriminate | done]).
  apply bind_inv in H as [(sq_from & g0 & Hfrom & H)|(e & Hfrom & ->)].
  2: { injection Hfrom as _ <-. left. split; [discriminate | done]. }
  unfold lift in Hfrom. injection Hfrom as Hfrom <-.
  apply bind_inv in H as [(sq_to & g0 & Hto & H)|(e & Hto & ->)].
  2: { injection Hto as _ <-. left. split; [discriminate | done]. }
  unfold lift in Hto. injection Hto as Hto <-.
  destruct (sq_eqb sq_from (-1, -1)) eqn:E1;
    [injection H as <- <-; left; split; [discriminate | done]|].
  destruct (sq_eqb sq_to (-1, -1)) eqn:E2;
    [injection H as <- <-; left; split; [discriminate | done]|].
  simpl in H.
  apply bind_inv in H as [(x & g0 & Hget & H)|(e & Hget & ->)].
  2: { unfold board_get, bind, gets, lift in Hget. injection Hget as _ <-.
       left. split; [discriminate | done]. }
  unfold board_get, bind, gets, lift in Hget. injection Hget as Hget <-.
  destruct x as [piece|];
    [|injection H as <- <-; left; split; [discriminate | done]].
  destruct (sq_eqb sq_from sq_to) eqn:E3;
    [injection H as <- <-; left; split; [discriminate | done]|].
  apply bind_inv in H as [(turn & g0 & [= <- <-] & H)|(e & [=] & _)].
  destruct (color_eqb (get_color piece) (player_turn g)) eqn:E4;
    [|injection H as <- <-; left; split; [discriminate | done]].
  simpl in H.
  assert (Hcolor : get_color piece = player_turn g).
  { by destruct (get_color piece), (player_turn g). }
  apply sq_eqb_neq in E1, E2, E3.
  fold (validity sq_from sq_to piece) in H.
  right. exists sq_from, sq_to, piece.
  apply bind_inv in H as [(valid & g1 & Hvalid & H)|(e & Hvalid & ->)].
  2: { exists g'. split_and!; auto.
       eapply validity_effect; [reflexivity | exact Hvalid]. }
  exists g1.
  assert (Heff : flag_effect sq_from piece g g1).
  { eapply validity_effect; [reflexivity | exact Hvalid]. }
  split_and!; auto.
  destruct valid.
  - apply bind_inv in H as [(bd & g2 & [= <- <-] & H)|(e & [=] & _)].
    apply bind_inv in H as [(capture & g2 & Hcap & H)|(e & Hcap & ->)].
    2: { injection Hcap as _ <-. left. split; [discriminate | done]. }
    unfold lift in Hcap. injection Hcap as Hcap <-.
    destruct capture as [| |capture];
      try (injection H as <- <-; left; split; [discriminate | done]).
    apply is_capture_inv in Hcap as (x & Hx & Hocc & Hking).
    right. exists VTrue, capture, x. split_and!; auto.
  - injection H as <- <-. left. split; [discriminate | done].
  - injection H as <- <-. left. split; [discriminate | done].
  - assert (Hpc : is_Pawn piece = true
                  ∧ ∃ t, getitem2 (board g1) sq_to = Ret (Some t)
                         ∧ color_eqb (get_color piece) (get_color t) = false).
    { unfold validity in Hvalid. destruct (is_Knight piece).
      - injection Hvalid as Hv _. by apply of_bool_not_pawn_capture in Hv.
      - by apply valid_move_pawn_capture_strong in Hvalid. }
    destruct Hpc as (Hpawn & t & Ht & Hcol).
    right. exists PAWN_CAPTURE, true, (Some t). split_and!; auto.
    intros _. split; [by destruct piece | eauto].
Qed.

(** ** Rejections *)



Lemma update_board_move_not_false sq_from sq_to g g' :
  update_board sq_from sq_to false g ≠ (Ret false, g').
Proof.
  unfold update_board. intros H.
  apply bind_ret_inv in H as (u & g1 & _ & H).
  apply bind_ret_inv in H as (v & g2 & _ & H). discriminate.
Qed.

(** X5. What a rejected call can have done on a well-shaped board: the game
    state is as before; a square holds what it held, except that a pawn
    may have lost its first-turn attribute; and either the turn and the
    king flags are as before, or (a vetoed capture) the turn has passed
    and both king flags are false. *)
Theorem rejected_move_effect (g g' : Game) (a b : string) :
  wf_game g ->
  make_move a b g = (Ret false, g') ->
  game_state g' = game_state g
  ∧ (∀ sq, in_board sq ->
           cell (board g') sq = cell (board g) sq
           ∨ ∃ c, cell (board g) sq = Some (Pawn c true)
                  ∧ cell (board g') sq = Some (Pawn c false))
  ∧ ((player_turn g' = player_turn g ∧ king_status g' = king_status g)
     ∨ (player_turn g' = opponent (player_turn g)
        ∧ ks_WHITE (king_status g') = false
        ∧ ks_BLACK (king_status g') = false)).
Proof.
  intros Hwf Hmove.
  apply make_move_inv in Hmove
    as [[_ ->]|(f & t & piece & g1 & Hst & Ha & Hb & Hf1 & Ht1 & Hne
                & Hpiece & Hcolor & Heff & Hrest)].
  { split_and!; auto. }
  assert (Hfrom : in_board f) by (eapply parsed_square_in_board; eauto).
  pose proof (getitem2_cell _ _ _ Hwf Hfrom Hpiece) as Hcp.
  destruct (flag_effect_facts _ _ _ _ Hwf Hfrom Hcp Heff)
    as (Hwf1 & Hst1 & Hturn1 & Hks1 & (p' & Hp' & Hsame) & Hframe).
  assert (Hcells : ∀ sq, in_board sq ->
            cell (board g1) sq = cell (board g) sq
            ∨ ∃ c, cell (board g) sq = Some (Pawn c true)
                   ∧ cell (board g1) sq = Some (Pawn c false)).
  { intros sq Hsq. destruct (decide (sq = f)) as [->|Hn]; [|left; auto].
    destruct Hsame as [->|(c & -> & ->)]; [left; congruence | right; eauto]. }
  destruct Hrest as [[_ ->]|(valid & capture & x & _ & _ & _ & _ & _ & Hupd)].
  { split_and!; auto. }
  destruct capture; [|by apply update_board_move_not_false in Hupd].
  apply update_board_vetoed in Hupd as (Hb' & Hs' & Ht' & Hw' & Hk'); [|done].
  rewrite Hb', Hs', Ht', Hst1, Hturn1. split_and!; auto.
Qed.

Lemma rejected_move_effect_witness :
  wf_game blocked_pawn_game
  ∧ game_state (make_move "f2" "f4" blocked_pawn_game).2
    = game_state blocked_pawn_game.
Proof.
  assert (H1 : wf_game blocked_pawn_game)
    by (split; [reflexivity | vm_compute; repeat constructor]).
  assert (H2 : make_move "f2" "f4" blocked_pawn_game
               = (Ret false, (make_move "f2" "f4" blocked_pawn_game).2))
    by (vm_compute; reflexivity).
  split; [exact H1|].
  exact (proj1 (rejected_move_effect _ _ _ _ H1 H2)).
Defined.

(** ** Accepted moves *)

(** X6. Every accepted move passes the turn to the other player. *)
Theorem accepted_move_passes_turn (g g' : Game) (a b : string) :
  wf_game g ->
  make_move a b g = (Ret true, g') ->
  player_turn g' = opponent (player_turn g).
Proof.
  intros Hwf Hmove.
  apply make_move_accepted in Hmove
    as (f & t & piece & g1 & capture & x & Hst & Ha & Hb & Hf1 & Ht1 & Hne
        & Hpiece & Hcolor & Heff & Hx & Hocc & Hupd).
  assert (Hfrom : in_board f) by (eapply parsed_square_in_board; eauto).
  pose proof (getitem2_cell _ _ _ Hwf Hfrom Hpiece) as Hcp.
  destruct (flag_effect_facts _ _ _ _ Hwf Hfrom Hcp Heff)
    as (Hwf1 & _ & Hturn1 & _ & _ & _).
  assert (Hto : in_board t) by (eapply parsed_square_in_board; eauto).
  rewrite <- Hturn1. destruct capture.
  - by apply update_board_capture_applied in Hupd as (_ & _ & _ & _ & _ & ? & _).
  - rewrite update_board_move_run in Hupd by done. by injection Hupd as <-.
Qed.

Lemma accepted_move_passes_turn_witness :
  wf_game new_game ∧ player_turn (make_move "e2" "e4" new_game).2 = BLACK.
Proof.
  assert (H1 : wf_game new_game) by (split; [reflexivity | repeat constructor]).
  split; [exact H1|].
  apply (accepted_move_passes_turn new_game _ "e2" "e4" H1).
  vm_compute. reflexivity.
Defined.

(** X7. An accepted move onto an occupied square is made by a piece of the
    player to move that is not a king, and the piece it lands on belongs
    to the other player. *)
Theorem accepted_capture_takes_opponent (g g' : Game) (a b : string)
    (sq_from sq_to : Square) (t : Piece) :
  wf_game g ->
  make_move a b g = (Ret true, g') ->
  notation_to_board_pos a = Ret sq_from ->
  notation_to_board_pos b = Ret sq_to ->
  getitem2 (board g) sq_to = Ret (Some t) ->
  ∃ piece, getitem2 (board g) sq_from = Ret (Some piece)
           ∧ get_color piece = player_turn g
           ∧ is_King piece = false
           ∧ get_color t = opponent (player_turn g).
Proof.
  intros Hwf Hmove Ha Hb Htarget.
  apply make_move_inv in Hmove
    as [[Hr _]|(f & t' & piece & g1 & Hst & Ha' & Hb' & Hf1 & Ht1 & Hne
                & Hpiece & Hcolor & Heff & Hrest)]; [done|].
  rewrite Ha in Ha'. injection Ha' as <-.
  rewrite Hb in Hb'. injection Hb' as <-.
  destruct Hrest as [[Hr _]|(valid & capture & x & _ & Hx & Hocc & _ & Hcap & _)];
    [done|].
  assert (Hfrom : in_board sq_from) by (eapply parsed_square_in_board; eauto).
  assert (Hto : in_board sq_to) by (eapply parsed_square_in_board; eauto).
  pose proof (getitem2_cell _ _ _ Hwf Hfrom Hpiece) as Hcp.
  destruct (flag_effect_facts _ _ _ _ Hwf Hfrom Hcp Heff)
    as (Hwf1 & _ & _ & _ & _ & Hframe).
  assert (x = Some t) as ->.
  { apply (getitem2_cell _ _ _ Hwf1 Hto) in Hx.
    rewrite Hframe in Hx by auto.
    apply (getitem2_cell _ _ _ Hwf Hto) in Htarget. congruence. }
  simpl in Hocc. subst capture.
  destruct (Hcap eq_refl) as (Hking & t2 & [= <-] & Hcol).
  exists piece. split_and!; auto.
  rewrite <- Hcolor. by destruct (get_color piece), (get_color t).
Qed.

Lemma accepted_capture_takes_opponent_witness :
  wf_game pawn_takes_pawn_game
  ∧ ∃ piece, getitem2 (board pawn_takes_pawn_game) (4, 4) = Ret (Some piece)
             ∧ get_color piece = player_turn pawn_takes_pawn_game
             ∧ is_King piece = false
             ∧ get_color (Pawn BLACK false) = opponent (player_turn pawn_takes_pawn_game).
Proof.
  assert (H1 : wf_game pawn_takes_pawn_game)
    by (split; [reflexivity | vm_compute; repeat constructor]).
  split; [exact H1|].
  apply (accepted_capture_takes_opponent pawn_takes_pawn_game
           (make_move "e4" "d5" pawn_takes_pawn_game).2 "e4" "d5" (4, 4) (3, 3));
    [exact H1 | vm_compute; reflexivity | reflexivity | reflexivity
     | vm_compute; reflexivity].
Defined.

(** ** King flags *)

Section KingFlags.
Variable Q : KingStatus -> Prop.
Hypothesis Q_clear_WHITE :
  ∀ ks, Q ks -> Q {| ks_WHITE := false; ks_BLACK := ks_BLACK ks |}.
Hypothesis Q_clear_BLACK :
  ∀ ks, Q ks -> Q {| ks_WHITE := ks_WHITE ks; ks_BLACK := false |}.

Let P (g : Game) : Prop := Q (king_status g).

Lemma preserves_kings_board_set sq x : preserves P (board_set sq x).
Proof.
  intros g r g' Hm. unfold board_set, bind, gets, lift, modify.
  destruct (setitem2 (board g) sq x); intros [= <- <-]; done.
Qed.

Lemma preserves_kings_set_is_first_turn self c v :
  preserves P (set_is_first_turn self c v).
Proof. by apply preserves_modify. Qed.

Lemma preserves_kings_update_turn : preserves P update_turn.
Proof. apply preserves_modify. intros g Hg. by destruct (player_turn g). Qed.

Lemma preserves_kings_set_king_status c : preserves P (set_king_status c false).
Proof.
  apply preserves_modify. intros g Hg. unfold P. destruct c; simpl; auto.
Qed.

Lemma preserves_kings_update_win : preserves P update_win.
Proof. unfold update_win. pres; by apply preserves_modify. Qed.

#[local] Hint Resolve preserves_kings_board_set preserves_kings_set_is_first_turn
  preserves_kings_update_turn preserves_kings_set_king_status
  preserves_kings_update_win : pres.

Lemma preserves_kings_explosion_scan row col offs acc :
  preserves P (explosion_scan row col offs acc).
Proof.
  revert acc. induction offs as [|[ro co] rest IH]; intros acc; simpl.
  - pres.
  - unfold board_get. pres; auto.
Qed.

Lemma preserves_kings_explode_all l : preserves P (explode_all l).
Proof. induction l as [|item rest IH]; simpl; unfold board_get; pres; auto. Qed.

#[local] Hint Resolve preserves_kings_explosion_scan preserves_kings_explode_all
  : pres.

Lemma preserves_kings_make_move a b : preserves P (make_move a b).
Proof.
  unfold make_move, update_board, explosion, move_piece, valid_move,
    piece_move, Pawn_is_valid_move, board_get.
  pres.
Qed.
End KingFlags.

(** X8. No call of [make_move], whatever it returns or raises, sets a king
    flag back to true: a flag that is set after a sequence of calls was
    set before it. *)
Theorem king_flags_never_restored (g : Game) (moves : list (string * string)) :
  (ks_WHITE (king_status (play moves g)) = true -> ks_WHITE (king_status g) = true)
  ∧ (ks_BLACK (king_status (play moves g)) = true -> ks_BLACK (king_status g) = true).
Proof.
  revert g. induction moves as [|[a b] rest IH]; intros g; [done|].
  cbn [play fold_left fst snd].
  destruct (make_move a b g) as [r g1] eqn:E. cbn [snd].
  specialize (IH g1). unfold play in IH.
  pose proof (preserves_kings_make_move
    (fun ks => (ks_WHITE ks = true -> ks_WHITE (king_status g) = true)
               ∧ (ks_BLACK ks = true -> ks_BLACK (king_status g) = true))) as Hp.
  destruct (Hp ltac:(simpl; intuition discriminate)
               ltac:(simpl; intuition discriminate) a b g r g1) as [Hw Hb]; auto.
  tauto.
Qed.

(** ** What the explosion decides *)

(** The scan clears the flag of exactly the colours that have a king
    among the squares it collects. *)
Lemma explosion_scan_flags row col offs acc g :
  wf_game g ->
  ∃ g', explosion_scan row col offs acc g
        = (Ret (acc ++ occupied_in (board g) row col offs), g')
    ∧ board g' = board g
    ∧ game_state g' = game_state g
    ∧ player_turn g' = player_turn g
    ∧ ks_WHITE (king_status g')
      = ks_WHITE (king_status g)
        && negb (king_among (board g) WHITE (occupied_in (board g) row col offs))
    ∧ ks_BLACK (king_status g')
      = ks_BLACK (king_status g)
        && negb (king_among (board g) BLACK (occupied_in (board g) row col offs)).
Proof.
  revert acc g. induction offs as [|[ro co] rest IH]; intros acc g Hwf.
  { exists g. simpl. rewrite app_nil_r, !andb_true_r. by split_and!. }
  cbn [explosion_scan]. rewrite scan_guard_in_board_b.
  unfold occupied_in. cbn [map List.filter fst snd].
  fold (occupied_in (board g) row col rest).
  destruct (in_board_b (row + ro, col + co)) eqn:Ein; cbn [negb andb].
  2: { apply IH, Hwf. }
  apply in_board_b_spec in Ein.
  rewrite (bind_run _ _ _ _ _ (board_get_wf _ _ Hwf Ein)).
  set (sq := (row + ro, col + co)) in *.
  destruct (cell (board g) sq) as [p|] eqn:Ecell; cbn [is_occupied].
  2: { apply IH, Hwf. }
  unfold king_among. cbn [existsb]. rewrite Ecell.
  fold (king_among (board g) WHITE (occupied_in (board g) row col rest)).
  fold (king_among (board g) BLACK (occupied_in (board g) row col rest)).
  assert (Hstep : ∃ g1,
    (if is_King p
     then if color_eqb (get_color p) WHITE
          then set_king_status WHITE false else set_king_status BLACK false
     else ret tt) g = (Ret tt, g1)
    ∧ board g1 = board g ∧ game_state g1 = game_state g
    ∧ player_turn g1 = player_turn g
    ∧ ks_WHITE (king_status g1)
      = ks_WHITE (king_status g) && negb (cell_is_King_of WHITE (Some p))
    ∧ ks_BLACK (king_status g1)
      = ks_BLACK (king_status g) && negb (cell_is_King_of BLACK (Some p))).
  { destruct p as [[]|c|c|c|c|c f]; eexists; (split; [reflexivity|]);
      simpl; rewrite ?andb_true_r, ?andb_false_r; by split_and!. }
  destruct Hstep as (g1 & Hrun & Hb1 & Hs1 & Ht1 & Hw1 & Hk1).
  rewrite (bind_run _ _ _ _ _ Hrun).
  assert (Hwf1 : wf_game g1) by (unfold wf_game; by rewrite Hb1).
  destruct (IH (acc ++ [sq]) g1 Hwf1) as (g' & Hrun' & Hb & Hs & Ht & Hw & Hk).
  exists g'. rewrite Hrun', Hb1, <- app_assoc. simpl.
  rewrite Hb1 in Hw, Hk. rewrite Hw, Hk, Hw1, Hk1.
  rewrite !negb_orb, !andb_assoc. split_and!; auto; congruence.
Qed.

Lemma king_among_blast b sq_to c :
  king_among b c (occupied_in b (sq_to.1 - 1) (sq_to.2 - 1) offsets) = true
  <-> king_in_blast b sq_to c.
Proof.
  unfold king_among, king_in_blast. rewrite existsb_exists. split.
  - intros (sq & Hin & Hk). apply occupied_in_spec in Hin as (Hsq & Hb & _).
    exists sq. split_and!; auto.
    destruct (cell b sq) as [[c'| | | | |]|]; try discriminate.
    simpl in Hk. f_equal. f_equal. by destruct c', c.
  - intros (sq & Hsq & Hb & Hc). exists sq. split.
    + apply occupied_in_spec. by rewrite Hc.
    + rewrite Hc. simpl. by destruct c.
Qed.

(** On a well-shaped board [explosion] never raises; it answers [False]
    exactly when both king flags are false after the scan. *)
Lemma explosion_total sq_to g :
  wf_game g -> in_board sq_to ->
  ∃ ex g', explosion sq_to g = (Ret ex, g')
    ∧ wf_game g'
    ∧ game_state g' = game_state g
    ∧ player_turn g' = player_turn g
    ∧ ks_WHITE (king_status g')
      = ks_WHITE (king_status g)
        && negb (king_among (board g) WHITE
                   (occupied_in (board g) (sq_to.1 - 1) (sq_to.2 - 1) offsets))
    ∧ ks_BLACK (king_status g')
      = ks_BLACK (king_status g)
        && negb (king_among (board g) BLACK
                   (occupied_in (board g) (sq_to.1 - 1) (sq_to.2 - 1) offsets))
    ∧ ex = ks_WHITE (king_status g') || ks_BLACK (king_status g').
Proof.
  intros Hwf Hto. unfold explosion.
  destruct (explosion_scan_flags (sq_to.1 - 1) (sq_to.2 - 1) offsets [] g Hwf)
    as (g2 & Hscan & Hb2 & Hs2 & Ht2 & Hw2 & Hk2).
  rewrite (bind_run _ _ _ _ _ Hscan). cbn [app].
  set (l := occupied_in (board g) (sq_to.1 - 1) (sq_to.2 - 1) offsets) in *.
  rewrite (bind_run _ _ _ (king_status g2) g2) by reflexivity.
  assert (Hwf2 : wf_game g2) by (unfold wf_game; by rewrite Hb2).
  destruct (negb (ks_WHITE (king_status g2)) && negb (ks_BLACK (king_status g2)))
    eqn:Eboth.
  { exists false, g2. apply andb_true_iff in Eboth as [Ew Ek].
    apply negb_true_iff in Ew, Ek. split_and!; auto. by rewrite Ew, Ek. }
  rewrite (bind_run _ _ _ _ _ (board_get_wf _ _ Hwf2 Hto)).
  assert (Hl : Forall in_board l) by apply occupied_in_in_board.
  assert (Hex : true = ks_WHITE (king_status g2) || ks_BLACK (king_status g2)).
  { destruct (ks_WHITE (king_status g2)), (ks_BLACK (king_status g2)); done. }
  destruct (cell_is_Pawn (cell (board g2) sq_to)).
  - rewrite (bind_run _ _ _ _ _ (board_set_wf _ _ _ Hwf2 Hto)).
    set (g3 := with_board g2 (store (board g2) sq_to None)).
    assert (Hwf3 : wf_game g3) by (by apply wf_store).
    destruct (explode_all_run l g3 Hwf3 Hl)
      as (g4 & Hrun & Hwf4 & Hs4 & Ht4 & Hk4 & _).
    rewrite (bind_run _ _ _ _ _ Hrun).
    exists true, g4. rewrite Hk4. unfold g3 in *.
    cbn [king_status with_board game_state player_turn] in *.
    split_and!; auto; congruence.
  - rewrite (bind_run _ _ _ tt g2) by reflexivity.
    destruct (explode_all_run l g2 Hwf2 Hl)
      as (g4 & Hrun & Hwf4 & Hs4 & Ht4 & Hk4 & _).
    rewrite (bind_run _ _ _ _ _ Hrun).
    exists true, g4. rewrite Hk4. split_and!; auto; congruence.
Qed.

(** On a well-shaped board [update_board] never raises. *)
Lemma update_board_total sq_from sq_to capture g :
  wf_game g -> in_board sq_from -> in_board sq_to ->
  ∃ r g', update_board sq_from sq_to capture g = (Ret r, g')
    ∧ wf_game g'
    ∧ player_turn g' = opponent (player_turn g)
    ∧ (capture = false -> r = true ∧ game_state g' = game_state g
                          ∧ king_status g' = king_status g)
    ∧ (capture = true ->
       ks_WHITE (king_status g')
       = ks_WHITE (king_status g)
         && negb (king_among (board g) WHITE
                    (occupied_in (board g) (sq_to.1 - 1) (sq_to.2 - 1) offsets))
       ∧ ks_BLACK (king_status g')
         = ks_BLACK (king_status g)
           && negb (king_among (board g) BLACK
                      (occupied_in (board g) (sq_to.1 - 1) (sq_to.2 - 1) offsets))
       ∧ r = ks_WHITE (king_status g') || ks_BLACK (king_status g')
       ∧ game_state g'
         = if r then
             if negb (ks_WHITE (king_status g')) then BLACK_WON
             else if negb (ks_BLACK (king_status g')) then WHITE_WON
             else game_state g
           else game_state g).
Proof.
  intros Hwf Hfrom Hto. destruct capture.
  - unfold update_board.
    rewrite (bind_run _ _ _ _ _ (update_turn_run g)).
    set (g1 := with_player_turn g (opponent (player_turn g))).
    assert (Hwf1 : wf_game g1) by done.
    destruct (explosion_total sq_to g1 Hwf1 Hto)
      as (ex & g2 & Hex & Hwf2 & Hs2 & Ht2 & Hw2 & Hk2 & Hr).
    rewrite (bind_run _ _ _ _ _ Hex).
    unfold g1 in *. cbn [board with_player_turn game_state player_turn king_status] in *.
    destruct ex; cbn [negb].
    + rewrite (bind_run _ _ _ _ _ (board_set_wf _ _ _ Hwf2 Hfrom)).
      set (g3 := with_board g2 (store (board g2) sq_from None)).
      destruct (update_win_run g3) as (g4 & Hwin & Hb4 & Ht4 & Hk4 & Hs4).
      rewrite (bind_run _ _ _ _ _ Hwin).
      exists true, g4. rewrite Hk4, Ht4, Hs4. unfold g3.
      cbn [board with_board game_state player_turn king_status].
      split_and!; auto.
      * unfold wf_game. rewrite Hb4. by apply wf_store.
      * discriminate.
      * intros _. split_and!; auto. by rewrite Hs2.
    + exists false, g2. split_and!; auto; try discriminate.
  - rewrite update_board_move_run by done.
    eexists _, _. split; [reflexivity|]. simpl.
    split_and!; auto; try discriminate. by do 2 apply wf_store.
Qed.

Lemma make_move_keeps_state_matches a b g r g' :
  wf_game g -> state_matches_kings g ->
  make_move a b g = (r, g') -> state_matches_kings g'.
Proof.
  intros Hwf Hinv Hmove.
  apply make_move_inv in Hmove
    as [[_ ->]|(f & t & piece & g1 & Hst & Ha & Hb & Hf1 & Ht1 & Hne
                & Hpiece & Hcolor & Heff & Hrest)]; [done|].
  assert (Hfrom : in_board f) by (eapply parsed_square_in_board; eauto).
  pose proof (getitem2_cell _ _ _ Hwf Hfrom Hpiece) as Hcp.
  destruct (flag_effect_facts _ _ _ _ Hwf Hfrom Hcp Heff)
    as (Hwf1 & Hst1 & Hturn1 & Hks1 & _ & _).
  assert (Hinv1 : state_matches_kings g1).
  { unfold state_matches_kings in *. by rewrite Hst1, Hks1. }
  destruct Hrest as [[_ ->]|(valid & capture & x & _ & Hx & _ & _ & _ & Hupd)];
    [done|].
  assert (Hto : in_board t) by (eapply parsed_square_in_board; eauto).
  destruct (update_board_total f t capture g1 Hwf1 Hfrom Hto)
    as (r' & g'' & Hrun & _ & _ & Hmv & Hcap).
  rewrite Hrun in Hupd. injection Hupd as <- <-.
  unfold state_matches_kings in *. rewrite Hst1, Hst in Hinv1.
  destruct capture.
  - destruct (Hcap eq_refl) as (Hw & Hk & Hr & Hs).
    rewrite Hs, Hr, Hst1, Hst.
    destruct (ks_WHITE (king_status g'')), (ks_BLACK (king_status g'')); done.
  - destruct (Hmv eq_refl) as (_ & Hs & Hk). by rewrite Hs, Hk, Hst1, Hst.
Qed.

(** X9. In every game that calls of [make_move] can bring about, the game
    state and the king flags go together: while the game is unfinished
    the two flags are equal (both true, or both false after a veto); once
    White has won, only the black flag is false; once Black has won, only
    the white flag is false. *)
Theorem reachable_state_matches_kings (g : Game) :
  reachable g -> state_matches_kings g.
Proof.
  induction 1 as [|g a b Hreach IH].
  - reflexivity.
  - destruct (make_move a b g) as [r g'] eqn:E. simpl.
    eapply make_move_keeps_state_matches; eauto. by apply reachable_wf.
Qed.

Lemma reachable_state_matches_kings_witness :
  state_matches_kings won_game ∧ state_matches_kings vetoed_game.
Proof.
  split; apply reachable_state_matches_kings.
  - apply reachable_play, reachable_new.
  - apply reachable_move, reachable_play, reachable_new.
Defined.

(** X10. The outcome of a capture while both king flags are set, by the kings
    that stand in the 3x3 block around the destination: with both kings
    there the capture is vetoed and the board stays as it was; with one
    king there the capture is applied and the other side has won; with
    none it is applied and the game goes on. *)
Theorem capture_outcome (g : Game) (sq_from sq_to : Square) :
  wf_game g -> in_board sq_from -> in_board sq_to ->
  ks_WHITE (king_status g) = true -> ks_BLACK (king_status g) = true ->
  ∃ r g', update_board sq_from sq_to true g = (Ret r, g')
    ∧ (king_in_blast (board g) sq_to WHITE ∧ king_in_blast (board g) sq_to BLACK ->
       r = false ∧ board g' = board g ∧ game_state g' = game_state g)
    ∧ (king_in_blast (board g) sq_to WHITE ∧ ¬ king_in_blast (board g) sq_to BLACK ->
       r = true ∧ game_state g' = BLACK_WON)
    ∧ (¬ king_in_blast (board g) sq_to WHITE ∧ king_in_blast (board g) sq_to BLACK ->
       r = true ∧ game_state g' = WHITE_WON)
    ∧ (¬ king_in_blast (board g) sq_to WHITE ∧ ¬ king_in_blast (board g) sq_to BLACK ->
       r = true ∧ game_state g' = game_state g).
Proof.
  intros Hwf Hfrom Hto Hw Hk.
  destruct (update_board_total sq_from sq_to true g Hwf Hfrom Hto)
    as (r & g' & Hrun & _ & _ & _ & Hcap).
  destruct (Hcap eq_refl) as (Hw' & Hk' & Hr & Hs).
  exists r, g'. split; [exact Hrun|].
  rewrite Hw in Hw'. rewrite Hk in Hk'. cbn [andb] in Hw', Hk'.
  pose proof (king_among_blast (board g) sq_to WHITE) as HW.
  pose proof (king_among_blast (board g) sq_to BLACK) as HB.
  destruct (king_among (board g) WHITE _) eqn:EW;
  destruct (king_among (board g) BLACK _) eqn:EB;
    cbn [negb] in Hw', Hk'; rewrite Hw', Hk' in Hr, Hs; cbn in Hr, Hs; subst r;
    split_and!; intros [H1 H2];
    try (apply HW in H1; discriminate); try (apply HB in H2; discriminate);
    try (exfalso; apply H1, HW; reflexivity);
    try (exfalso; apply H2, HB; reflexivity);
    split_and!; auto.
  by apply update_board_vetoed in Hrun as [? _].
Qed.

Lemma capture_outcome_witness :
  wf_game both_kings_near_game
  ∧ king_in_blast (board both_kings_near_game) (3, 3) WHITE
  ∧ king_in_blast (board both_kings_near_game) (3, 3) BLACK
  ∧ ∃ r g', update_board (4, 4) (3, 3) true both_kings_near_game = (Ret r, g')
            ∧ r = false ∧ board g' = board both_kings_near_game.
Proof.
  assert (H1 : wf_game both_kings_near_game)
    by (split; [reflexivity | vm_compute; repeat constructor]).
  assert (HW : king_in_blast (board both_kings_near_game) (3, 3) WHITE).
  { exists (4, 3). unfold in_board, in_blast. cbn [fst snd].
    split_and!; try lia. vm_compute. reflexivity. }
  assert (HB : king_in_blast (board both_kings_near_game) (3, 3) BLACK).
  { exists (2, 3). unfold in_board, in_blast. cbn [fst snd].
    split_and!; try lia. vm_compute. reflexivity. }
  split_and!; [exact H1 | exact HW | exact HB |].
  destruct (capture_outcome both_kings_near_game (4, 4) (3, 3) H1)
    as (r & g' & Hrun & Hboth & _);
    [unfold in_board; cbn [fst snd]; lia | unfold in_board; cbn [fst snd]; lia
     | vm_compute; reflexivity | vm_compute; reflexivity |].
  destruct (Hboth (conj HW HB)) as (Hr & Hb & _).
  exists r, g'. split_and!; assumption.
Defined.

(** ** Clear paths *)

Lemma In_range a b x : In x (range a b) <-> a <= x < b.
Proof.
  unfold range. rewrite in_map_iff. split.
  - intros (i & <- & Hi). apply in_seq in Hi. lia.
  - intros Hx. exists (Z.to_nat (x - a)). split; [lia|]. apply in_seq. lia.
Qed.

Lemma path_is_empty_spec b squares :
  wf_board b -> (∀ sq, In sq squares -> in_board sq) ->
  ∃ r, path_is_empty b squares = Ret r
       ∧ (r = true <-> ∀ sq, In sq squares -> cell b sq = None).
Proof.
  intros Hwf. induction squares as [|sq rest IH]; intros Hin.
  { exists true. split; [done|]. split; [intros _ ? [] | done]. }
  cbn [path_is_empty].
  rewrite getitem2_wf by (try done; apply Hin; by left). cbn [res_bind].
  destruct (cell b sq) as [p|] eqn:Ecell.
  - exists false. split; [done|]. split; [done|].
    intros H. specialize (H sq (or_introl eq_refl)). congruence.
  - destruct IH as (r & Hr & Hiff); [intros; apply Hin; by right|].
    exists r. split; [done|]. rewrite Hiff. split.
    + intros H sq' [<-|Hin']; auto.
    + intros H sq' Hin'. apply H. by right.
Qed.

Lemma path_along b (f : Z -> Square) lo hi :
  wf_board b -> (∀ i, lo <= i < hi -> in_board (f i)) ->
  ∃ r, path_is_empty b (map f (range lo hi)) = Ret r
       ∧ (r = true <-> ∀ i, lo <= i < hi -> cell b (f i) = None).
Proof.
  intros Hwf Hin.
  destruct (path_is_empty_spec b (map f (range lo hi)) Hwf) as (r & Hr & Hiff).
  { intros sq Hsq. apply in_map_iff in Hsq as (i & <- & Hi).
    apply Hin. by apply In_range. }
  exists r. split; [done|]. rewrite Hiff. split.
  - intros H i Hi. apply H. apply in_map_iff. exists i. split; [done|].
    by apply In_range.
  - intros H sq Hsq. apply in_map_iff in Hsq as (i & <- & Hi).
    apply H. by apply In_range.
Qed.

(** Along a row or a column, between two different squares of a
    well-shaped board, [clear_path_straight] does not raise and answers
    [True] exactly when every square strictly between the two is empty. *)
Lemma clear_path_straight_run (b : Board) (sq_from sq_to : Square) :
  wf_board b -> in_board sq_from -> in_board sq_to ->
  sq_from ≠ sq_to ->
  sq_from.1 = sq_to.1 ∨ sq_from.2 = sq_to.2 ->
  ∃ r, clear_path_straight b sq_from sq_to = Ret r
       ∧ (r = true <->
          ∀ sq, (sq.2 = sq_from.2 ∧ sq_from.2 = sq_to.2
                 ∧ between sq_from.1 sq_to.1 sq.1)
                ∨ (sq.1 = sq_from.1 ∧ sq_from.1 = sq_to.1
                   ∧ between sq_from.2 sq_to.2 sq.2) ->
                cell b sq = None).
Proof.
  destruct sq_from as [fr fc], sq_to as [tr tc].
  intros Hwf [Hfr Hfc] [Htr Htc] Hne Hline. cbn [fst snd] in *.
  unfold clear_path_straight, between. cbn [fst snd].
  destruct (fr - tr >? 0) eqn:E1.
  { rewrite Z.gtb_ltb in E1. apply Z.ltb_lt in E1.
    destruct (path_along b (fun row => (row, fc)) (tr + 1) fr Hwf) as (r & Hr & Hiff).
    { intros i Hi. split; simpl; lia. }
    exists r. split; [done|]. rewrite Hiff. split.
    - intros H [r0 c0] Hsq. simpl in Hsq.
      destruct Hsq as [(-> & _ & Hb)|(-> & ? & _)]; [|lia]. apply H. lia.
    - intros H i Hi. apply H. left. simpl. split_and!; auto; lia. }
  rewrite Z.gtb_ltb in E1. apply Z.ltb_ge in E1.
  destruct (fr - tr <? 0) eqn:E2.
  { apply Z.ltb_lt in E2.
    destruct (path_along b (fun row => (row, fc)) (fr + 1) tr Hwf) as (r & Hr & Hiff).
    { intros i Hi. split; simpl; lia. }
    exists r. split; [done|]. rewrite Hiff. split.
    - intros H [r0 c0] Hsq. simpl in Hsq.
      destruct Hsq as [(-> & _ & Hb)|(-> & ? & _)]; [|lia]. apply H. lia.
    - intros H i Hi. apply H. left. simpl. split_and!; auto; lia. }
  apply Z.ltb_ge in E2. assert (fr = tr) as -> by lia.
  assert (Hcne : fc ≠ tc) by congruence.
  destruct (fc - tc >? 0) eqn:E3.
  { rewrite Z.gtb_ltb in E3. apply Z.ltb_lt in E3.
    destruct (path_along b (fun col => (tr, col)) (tc + 1) fc Hwf) as (r & Hr & Hiff).
    { intros i Hi. split; simpl; lia. }
    exists r. split; [done|]. rewrite Hiff. split.
    - intros H [r0 c0] Hsq. simpl in Hsq.
      destruct Hsq as [(-> & ? & _)|(-> & _ & Hb)]; [lia|]. apply H. lia.
    - intros H i Hi. apply H. right. simpl. split_and!; auto; lia. }
  rewrite Z.gtb_ltb in E3. apply Z.ltb_ge in E3.
  destruct (fc - tc <? 0) eqn:E4; [|apply Z.ltb_ge in E4; lia].
  apply Z.ltb_lt in E4.
  destruct (path_along b (fun col => (tr, col)) (fc + 1) tc Hwf) as (r & Hr & Hiff).
  { intros i Hi. split; simpl; lia. }
  exists r. split; [done|]. rewrite Hiff. split.
  - intros H [r0 c0] Hsq. simpl in Hsq.
    destruct Hsq as [(-> & ? & _)|(-> & _ & Hb)]; [lia|]. apply H. lia.
  - intros H i Hi. apply H. right. simpl. split_and!; auto; lia.
Qed.


(** Along a diagonal, between two different squares of a well-shaped
    board, [clear_path_diagonal] does not raise and answers [True]
    exactly when every square strictly between the two is empty. *)
Lemma clear_path_diagonal_run (b : Board) (sq_from sq_to : Square) :
  wf_board b -> in_board sq_from -> in_board sq_to ->
  sq_from ≠ sq_to ->
  Z.abs (sq_from.1 - sq_to.1) = Z.abs (sq_from.2 - sq_to.2) ->
  ∃ r, clear_path_diagonal b sq_from sq_to = Ret r
       ∧ (r = true <->
          ∀ k, 0 < k < Z.abs (sq_from.1 - sq_to.1) ->
               cell b (sq_from.1 + k * Z.sgn (sq_to.1 - sq_from.1),
                       sq_from.2 + k * Z.sgn (sq_to.2 - sq_from.2)) = None).
Proof.
  destruct sq_from as [fr fc], sq_to as [tr tc].
  intros Hwf [Hfr Hfc] [Htr Htc] Hne Hdiag. cbn [fst snd] in *.
  assert (Hrne : fr ≠ tr) by (intros ->; apply Hne; f_equal; lia).
  unfold clear_path_diagonal. cbn [fst snd].
  destruct (fr - tr >? 0) eqn:E1; rewrite Z.gtb_ltb in E1;
    [apply Z.ltb_lt in E1 | apply Z.ltb_ge in E1];
  destruct (fc - tc >? 0) eqn:E2; rewrite Z.gtb_ltb in E2;
    [apply Z.ltb_lt in E2 | apply Z.ltb_ge in E2 | apply Z.ltb_lt in E2
     | apply Z.ltb_ge in E2];
  destruct (fr - tr <? 0) eqn:E3;
    [apply Z.ltb_lt in E3 | apply Z.ltb_ge in E3 | apply Z.ltb_lt in E3
     | apply Z.ltb_ge in E3 | apply Z.ltb_lt in E3 | apply Z.ltb_ge in E3
     | apply Z.ltb_lt in E3 | apply Z.ltb_ge in E3];
  destruct (fc - tc <? 0) eqn:E4;
    try apply Z.ltb_lt in E4; try apply Z.ltb_ge in E4;
  try lia; cbn [andb];
  match goal with
  | |- ∃ r, path_is_empty b (map ?f (range 1 ?d)) = _ ∧ _ =>
      destruct (path_along b f 1 d Hwf) as (r & Hr & Hiff);
        [intros i Hi; split; cbn [fst snd]; lia|];
      exists r; split; [done|]; rewrite Hiff
  end.
  - rewrite (Z.sgn_neg (tr - fr)), (Z.sgn_neg (tc - fc)) by lia.
    split; intros H k Hk;
      [replace (fr + k * -1) with (fr - k) by lia;
       replace (fc + k * -1) with (fc - k) by lia; apply H; lia
      |specialize (H k);
       replace (fr + k * -1) with (fr - k) in H by lia;
       replace (fc + k * -1) with (fc - k) in H by lia; apply H; lia].
  - rewrite (Z.sgn_neg (tr - fr)), (Z.sgn_pos (tc - fc)) by lia.
    split; intros H k Hk;
      [replace (fr + k * -1) with (fr - k) by lia;
       replace (fc + k * 1) with (fc + k) by lia; apply H; lia
      |specialize (H k);
       replace (fr + k * -1) with (fr - k) in H by lia;
       replace (fc + k * 1) with (fc + k) in H by lia; apply H; lia].
  - rewrite (Z.sgn_pos (tr - fr)), (Z.sgn_neg (tc - fc)) by lia.
    split; intros H k Hk;
      [replace (fr + k * 1) with (fr + k) by lia;
       replace (fc + k * -1) with (fc - k) by lia; apply H; lia
      |specialize (H k);
       replace (fr + k * 1) with (fr + k) in H by lia;
       replace (fc + k * -1) with (fc - k) in H by lia; apply H; lia].
  - rewrite (Z.sgn_pos (tr - fr)), (Z.sgn_pos (tc - fc)) by lia.
    split; intros H k Hk;
      [replace (fr + k * 1) with (fr + k) by lia;
       replace (fc + k * 1) with (fc + k) by lia; apply H; lia
      |specialize (H k);
       replace (fr + k * 1) with (fr + k) in H by lia;
       replace (fc + k * 1) with (fc + k) in H by lia; apply H; lia].
Qed.


(** For a pawn moving along its column on a well-shaped board,
    [clear_path_pawn] does not raise and answers [True] exactly when
    every square from the one after the origin up to and including the
    destination is empty. *)
Lemma clear_path_pawn_run (b : Board) (sq_from sq_to : Square) :
  wf_board b -> in_board sq_from -> in_board sq_to ->
  sq_from.1 ≠ sq_to.1 ->
  ∃ r, clear_path_pawn b sq_from sq_to = Ret (of_bool r)
       ∧ (r = true <->
          ∀ row, sq_to.1 <= row < sq_from.1 ∨ sq_from.1 < row <= sq_to.1 ->
                 cell b (row, sq_from.2) = None).
Proof.
  destruct sq_from as [fr fc], sq_to as [tr tc].
  intros Hwf [Hfr Hfc] [Htr Htc] Hne. cbn [fst snd] in *.
  unfold clear_path_pawn. cbn [fst snd].
  destruct (fr - tr >? 0) eqn:E1.
  { rewrite Z.gtb_ltb in E1. apply Z.ltb_lt in E1.
    destruct (path_along b (fun row => (row, fc)) tr fr Hwf) as (r & Hr & Hiff).
    { intros i Hi. split; simpl; lia. }
    exists r. rewrite Hr. split; [done|]. rewrite Hiff.
    split; intros H i Hi; apply H; lia. }
  rewrite Z.gtb_ltb in E1. apply Z.ltb_ge in E1.
  destruct (fr - tr <? 0) eqn:E2; [|apply Z.ltb_ge in E2; lia].
  apply Z.ltb_lt in E2.
  destruct (path_along b (fun row => (row, fc)) (fr + 1) (tr + 1) Hwf)
    as (r & Hr & Hiff).
  { intros i Hi. split; simpl; lia. }
  exists r. rewrite Hr. split; [done|]. rewrite Hiff.
  split; intros H i Hi; apply H; lia.
Qed.


(** ** The moves of the pieces *)

Ltac boolp :=
  repeat match goal with
  | H : _ && _ = true |- _ => apply andb_true_iff in H as [? ?]
  | H : (_ =? _) = true |- _ => apply Z.eqb_eq in H
  | H : (_ =? _) = false |- _ => apply Z.eqb_neq in H
  | H : (_ <? _) = true |- _ => apply Z.ltb_lt in H
  | H : (_ <? _) = false |- _ => apply Z.ltb_ge in H
  | H : (_ >? _) = true |- _ => rewrite Z.gtb_ltb in H
  | H : (_ >? _) = false |- _ => rewrite Z.gtb_ltb in H
  end.

Lemma move_direction_not_pawn sq_from sq_to piece :
  is_Pawn piece = false ->
  move_direction sq_from sq_to piece
  = if (sq_from.1 =? sq_to.1) || (sq_from.2 =? sq_to.2) then STRAIGHT
    else if Z.abs (sq_from.1 - sq_to.1) =? Z.abs (sq_from.2 - sq_to.2) then DIAGONAL
    else NoDirection.
Proof.
  intros Hp. unfold move_direction. rewrite Hp, !andb_false_r. reflexivity.
Qed.

Lemma straight_line_b sq_from sq_to :
  (sq_from.1 =? sq_to.1) || (sq_from.2 =? sq_to.2) = true
  <-> straight_line sq_from sq_to.
Proof. unfold straight_line. rewrite orb_true_iff, !Z.eqb_eq. tauto. Qed.

Lemma of_bool_true r : of_bool r = VTrue -> r = true.
Proof. by destruct r. Qed.

Lemma valid_move_rook sq_from sq_to c g g1 :
  valid_move sq_from sq_to (Rook c) g = (Ret VTrue, g1) ->
  g1 = g ∧ straight_line sq_from sq_to
  ∧ clear_path_straight (board g) sq_from sq_to = Ret true.
Proof.
  unfold valid_move, piece_move, bind, ret, gets, lift.
  rewrite move_direction_not_pawn by done.
  intros H. repeat case_match; simplify_eq.
  apply of_bool_true in H as ->. split_and!; auto. by apply straight_line_b.
Qed.

Lemma valid_move_bishop sq_from sq_to c g g1 :
  valid_move sq_from sq_to (Bishop c) g = (Ret VTrue, g1) ->
  g1 = g ∧ diagonal_line sq_from sq_to
  ∧ clear_path_diagonal (board g) sq_from sq_to = Ret true.
Proof.
  unfold valid_move, piece_move, bind, ret, gets, lift.
  rewrite move_direction_not_pawn by done.
  intros H. repeat case_match; simplify_eq.
  apply of_bool_true in H as ->. boolp. split_and!; auto.
Qed.

Lemma valid_move_queen sq_from sq_to c g g1 :
  valid_move sq_from sq_to (Queen c) g = (Ret VTrue, g1) ->
  g1 = g
  ∧ ((straight_line sq_from sq_to
      ∧ clear_path_straight (board g) sq_from sq_to = Ret true)
     ∨ (diagonal_line sq_from sq_to
        ∧ clear_path_diagonal (board g) sq_from sq_to = Ret true)).
Proof.
  unfold valid_move, piece_move, bind, ret, gets, lift.
  rewrite move_direction_not_pawn by done.
  intros H. repeat case_match; simplify_eq;
    apply of_bool_true in H as ->; (split; [done|]).
  - left. split; [by apply straight_line_b | done].
  - right. boolp. split; done.
Qed.

Lemma valid_move_king sq_from sq_to c g g1 :
  valid_move sq_from sq_to (King c) g = (Ret VTrue, g1) ->
  g1 = g
  ∧ ((sq_from.1 = sq_to.1 ∧ sq_to.2 = sq_from.2 - 1)
     ∨ (Z.abs (sq_from.1 - sq_to.1) = 1 ∧ Z.abs (sq_from.2 - sq_to.2) <= 1)).
Proof.
  unfold valid_move, piece_move, bind, ret, gets, lift.
  rewrite move_direction_not_pawn by done.
  intros H. repeat case_match; simplify_eq; (split; [done|]); boolp;
    cbn [direction_eqb andb] in *; boolp; try discriminate.
  all: repeat match goal with
       | H : _ || _ = true |- _ => apply orb_true_iff in H as [?|?]
       | H : _ || _ = false |- _ => apply orb_false_iff in H as [? ?]
       end; boolp; try lia.
Qed.

Lemma Pawn_is_valid_move_true self c f direction distance g g1 :
  Pawn_is_valid_move self c f direction distance g = (Ret VTrue, g1) ->
  ((c = BLACK ∧ direction = b_FORWARD) ∨ (c = WHITE ∧ direction = w_FORWARD))
  ∧ ((distance = 2 ∧ f = true) ∨ distance = 1).
Proof.
  unfold Pawn_is_valid_move, bind, ret, set_is_first_turn, modify.
  intros H. destruct c, direction, f; cbn in H;
    repeat case_match; simplify_eq; boolp; split; auto.
Qed.

Lemma Pawn_is_valid_move_capture self c f direction distance g g1 :
  Pawn_is_valid_move self c f direction distance g = (Ret PAWN_CAPTURE, g1) ->
  g1 = g ∧ distance = 1
  ∧ ((c = BLACK ∧ direction = b_DIAGONAL) ∨ (c = WHITE ∧ direction = w_DIAGONAL)).
Proof.
  unfold Pawn_is_valid_move, bind, ret, set_is_first_turn, modify.
  intros H. destruct c, direction, f; cbn in H;
    repeat case_match; simplify_eq; boolp; split_and!; auto.
Qed.

Lemma move_direction_forward sq_from sq_to piece :
  (move_direction sq_from sq_to piece = w_FORWARD ->
   sq_from.2 = sq_to.2 ∧ sq_to.1 < sq_from.1)
  ∧ (move_direction sq_from sq_to piece = b_FORWARD ->
     sq_from.2 = sq_to.2 ∧ sq_from.1 < sq_to.1).
Proof.
  unfold move_direction.
  split; intros H; repeat case_match; simplify_eq; boolp;
    match goal with
    | H : _ || _ = true |- _ => apply orb_true_iff in H as [?|?]
    end; boolp; lia.
Qed.

Lemma move_direction_diagonal sq_from sq_to piece :
  (move_direction sq_from sq_to piece = w_DIAGONAL ->
   sq_to.1 = sq_from.1 - 1 ∧ Z.abs (sq_from.2 - sq_to.2) = 1)
  ∧ (move_direction sq_from sq_to piece = b_DIAGONAL ->
     sq_to.1 = sq_from.1 + 1 ∧ Z.abs (sq_from.2 - sq_to.2) = 1).
Proof.
  unfold move_direction.
  split; intros H; repeat case_match; simplify_eq; boolp; lia.
Qed.

(** What [valid_move] has checked when it lets a pawn advance. *)
Lemma valid_move_pawn_advance sq_from sq_to c f g g1 :
  valid_move sq_from sq_to (Pawn c f) g = (Ret VTrue, g1) ->
  sq_from.2 = sq_to.2
  ∧ ((c = WHITE ∧ sq_to.1 < sq_from.1) ∨ (c = BLACK ∧ sq_from.1 < sq_to.1))
  ∧ (Z.abs (sq_from.1 - sq_to.1) = 1
     ∨ (Z.abs (sq_from.1 - sq_to.1) = 2 ∧ f = true
        ∧ g1 = with_board g (store (board g) sq_from (Some (Pawn c false)))))
  ∧ clear_path_pawn (board g1) sq_from sq_to = Ret VTrue.
Proof.
  unfold valid_move.
  destruct (direction_eqb _ NoDirection) eqn:Ed; [discriminate|].
  intros H. apply bind_ret_inv in H as (v & g2 & Hpm & H).
  cbn [piece_move] in Hpm.
  destruct v; try discriminate.
  2: { unfold bind, gets, lift, ret in H. repeat case_match; simplify_eq. }
  pose proof Hpm as Hpm'.
  apply Pawn_is_valid_move_true in Hpm as [Hdir Hdist].
  pose proof (move_direction_forward sq_from sq_to (Pawn c f)) as [Hw Hb].
  assert (Hgeo : sq_from.2 = sq_to.2
    ∧ ((c = WHITE ∧ sq_to.1 < sq_from.1) ∨ (c = BLACK ∧ sq_from.1 < sq_to.1))).
  { destruct Hdir as [[-> Hd]|[-> Hd]]; [destruct (Hb Hd) | destruct (Hw Hd)];
      split; auto. }
  destruct Hgeo as [Hcol Hfwd].
  assert (Hdirs : direction_eqb (move_direction sq_from sq_to (Pawn c f)) STRAIGHT
                  = false).
  { destruct Hdir as [[_ ->]|[_ ->]]; reflexivity. }
  rewrite Hdirs in *. cbn [andb] in *.
  assert (Hpath : clear_path_pawn (board g2) sq_from sq_to = Ret VTrue ∧ g1 = g2).
  { unfold bind, gets, lift, ret in H.
    destruct Hdir as [[_ Hd]|[_ Hd]]; rewrite Hd in H; cbn in H;
      destruct (clear_path_pawn (board g2) sq_from sq_to) as [v|] eqn:E;
      simplify_eq; done. }
  destruct Hpath as [Hpath ->].
  split_and!; auto.
  destruct Hdist as [[Hd ->]|Hd]; [right|left; done].
  split_and!; auto.
  unfold Pawn_is_valid_move in Hpm'. rewrite Hd in Hpm'.
  destruct Hdir as [[-> Hdd]|[-> Hdd]]; rewrite Hdd in Hpm'; cbn in Hpm';
    by injection Hpm' as <-.
Qed.

(** What [valid_move] has checked when it lets a pawn capture. *)
Lemma valid_move_pawn_takes sq_from sq_to c f g g1 :
  valid_move sq_from sq_to (Pawn c f) g = (Ret PAWN_CAPTURE, g1) ->
  g1 = g
  ∧ Z.abs (sq_from.2 - sq_to.2) = 1
  ∧ ((c = WHITE ∧ sq_to.1 = sq_from.1 - 1) ∨ (c = BLACK ∧ sq_to.1 = sq_from.1 + 1)).
Proof.
  unfold valid_move.
  destruct (direction_eqb _ NoDirection) eqn:Ed; [discriminate|].
  intros H. apply bind_ret_inv in H as (v & g2 & Hpm & H).
  cbn [piece_move] in Hpm.
  destruct v; try discriminate.
  { unfold bind, gets, lift, ret in H.
    pose proof (clear_path_pawn_not_pawn_capture (board g2) sq_from sq_to).
    repeat case_match; simplify_eq;
      match goal with
      | H : of_bool _ = PAWN_CAPTURE |- _ => by apply of_bool_not_pawn_capture in H
      | _ => idtac
      end. }
  apply Pawn_is_valid_move_capture in Hpm as (-> & _ & Hdir).
  assert (g1 = g) as ->.
  { unfold bind, gets, lift, ret in H. repeat case_match; simplify_eq; done. }
  pose proof (move_direction_diagonal sq_from sq_to (Pawn c f)) as [Hw Hb].
  split; [done|].
  destruct Hdir as [[-> Hd]|[-> Hd]]; [destruct (Hb Hd) | destruct (Hw Hd)];
    split; auto.
Qed.

(** The facts shared by all accepted moves: both squares are on the
    board and differ, the move passed the validity check, which left the
    other squares alone, and a king never lands on an occupied square. *)
Lemma accepted_move_validity a b g g' sq_from sq_to piece :
  wf_game g ->
  make_move a b g = (Ret true, g') ->
  notation_to_board_pos a = Ret sq_from ->
  notation_to_board_pos b = Ret sq_to ->
  getitem2 (board g) sq_from = Ret (Some piece) ->
  in_board sq_from ∧ in_board sq_to ∧ sq_from ≠ sq_to
  ∧ ∃ g1 valid,
      validity sq_from sq_to piece g = (Ret valid, g1)
      ∧ wf_game g1
      ∧ (∀ sq, in_board sq -> sq ≠ sq_from -> cell (board g1) sq = cell (board g) sq)
      ∧ update_board sq_from sq_to (is_occupied (cell (board g) sq_to)) g1
        = (Ret true, g')
      ∧ ((valid = VTrue ∧ (is_King piece = true -> cell (board g) sq_to = None))
         ∨ (valid = PAWN_CAPTURE
            ∧ ∃ t, cell (board g) sq_to = Some t
                   ∧ color_eqb (get_color piece) (get_color t) = false)).
Proof.
  intros Hwf Hmove Ha Hb Hpiece.
  apply make_move_inv in Hmove
    as [[Hr _]|(f & t & piece' & g1 & Hst & Ha' & Hb' & Hf1 & Ht1 & Hne
                & Hpiece' & Hcolor & Heff & Hrest)]; [done|].
  rewrite Ha in Ha'. injection Ha' as <-.
  rewrite Hb in Hb'. injection Hb' as <-.
  rewrite Hpiece in Hpiece'. injection Hpiece' as <-.
  destruct Hrest
    as [[Hr _]|(valid & capture & x & Hval & Hx & Hocc & Hv & Hcap & Hupd)];
    [done|].
  assert (Hfrom : in_board sq_from) by (eapply parsed_square_in_board; eauto).
  pose proof (getitem2_cell _ _ _ Hwf Hfrom Hpiece) as Hcp.
  destruct (flag_effect_facts _ _ _ _ Hwf Hfrom Hcp Heff)
    as (Hwf1 & _ & _ & _ & _ & Hframe).
  assert (Hto : in_board sq_to) by (eapply parsed_square_in_board; eauto).
  apply (getitem2_cell _ _ _ Hwf1 Hto) in Hx. rewrite Hframe in Hx by auto.
  split_and!; auto. exists g1, valid. split_and!; auto.
  { by rewrite Hx, Hocc. }
  destruct Hv as [->|[-> ->]].
  - left. split; [done|]. intros Hking.
    destruct capture; [|by destruct x].
    destruct (Hcap eq_refl) as [Hk _]. congruence.
  - right. destruct (Hcap eq_refl) as (_ & t & -> & Hcol). eauto.
Qed.

(** X11. Along a row or a column, between two different squares of a
    well-shaped board, [clear_path_straight] does not raise, and it
    answers [True] exactly when every square strictly between the two is
    empty; neither end square is looked at. *)
Theorem clear_path_straight_spec (b : Board) (sq_from sq_to : Square) :
  wf_board b -> in_board sq_from -> in_board sq_to ->
  sq_from ≠ sq_to -> straight_line sq_from sq_to ->
  (straight_path_empty b sq_from sq_to ->
   clear_path_straight b sq_from sq_to = Ret true)
  ∧ (¬ straight_path_empty b sq_from sq_to ->
     clear_path_straight b sq_from sq_to = Ret false).
Proof.
  intros Hwf Hfrom Hto Hne Hline.
  destruct (clear_path_straight_run b sq_from sq_to Hwf Hfrom Hto Hne Hline)
    as (r & Hr & Hiff).
  fold (straight_path_empty b sq_from sq_to) in Hiff.
  rewrite Hr. destruct r.
  - split; [done|]. intros Hn. exfalso. apply Hn. by apply Hiff.
  - split; [|done]. intros He. apply Hiff in He. discriminate.
Qed.

Lemma clear_path_straight_spec_witness :
  straight_path_empty (board new_game) (6, 0) (3, 0)
  ∧ clear_path_straight (board new_game) (6, 0) (3, 0) = Ret true.
Proof.
  assert (He : straight_path_empty (board new_game) (6, 0) (3, 0)).
  { intros [r c]. unfold between. cbn [fst snd].
    intros [(-> & _ & Hb)|(_ & ? & _)]; [|lia].
    assert (r = 4 ∨ r = 5) as [-> | ->] by lia; reflexivity. }
  split; [exact He|].
  assert (Hwf : wf_board (board new_game))
    by (split; [reflexivity | repeat constructor]).
  assert (Hfrom : in_board (6, 0)) by (unfold in_board; cbn [fst snd]; lia).
  assert (Hto : in_board (3, 0)) by (unfold in_board; cbn [fst snd]; lia).
  assert (Hne : (6, 0) ≠ (3, 0)) by discriminate.
  assert (Hline : straight_line (6, 0) (3, 0)) by (right; reflexivity).
  exact (proj1 (clear_path_straight_spec _ _ _ Hwf Hfrom Hto Hne Hline) He).
Defined.

(** X12. Along a diagonal, between two different squares of a well-shaped
    board, [clear_path_diagonal] does not raise, and it answers [True]
    exactly when every square strictly between the two is empty. *)
Theorem clear_path_diagonal_spec (b : Board) (sq_from sq_to : Square) :
  wf_board b -> in_board sq_from -> in_board sq_to ->
  sq_from ≠ sq_to -> diagonal_line sq_from sq_to ->
  (diagonal_path_empty b sq_from sq_to ->
   clear_path_diagonal b sq_from sq_to = Ret true)
  ∧ (¬ diagonal_path_empty b sq_from sq_to ->
     clear_path_diagonal b sq_from sq_to = Ret false).
Proof.
  intros Hwf Hfrom Hto Hne Hline.
  destruct (clear_path_diagonal_run b sq_from sq_to Hwf Hfrom Hto Hne Hline)
    as (r & Hr & Hiff).
  fold (diagonal_path_empty b sq_from sq_to) in Hiff.
  rewrite Hr. destruct r.
  - split; [done|]. intros Hn. exfalso. apply Hn. by apply Hiff.
  - split; [|done]. intros He. apply Hiff in He. discriminate.
Qed.

Lemma clear_path_diagonal_spec_witness :
  ¬ diagonal_path_empty (board new_game) (7, 2) (4, 5)
  ∧ clear_path_diagonal (board new_game) (7, 2) (4, 5) = Ret false.
Proof.
  assert (Hn : ¬ diagonal_path_empty (board new_game) (7, 2) (4, 5)).
  { intros He. specialize (He 1). cbn in He.
    assert (H : 0 < 1 < 3) by lia. specialize (He H). discriminate. }
  split; [exact Hn|].
  assert (Hwf : wf_board (board new_game))
    by (split; [reflexivity | repeat constructor]).
  assert (Hfrom : in_board (7, 2)) by (unfold in_board; cbn [fst snd]; lia).
  assert (Hto : in_board (4, 5)) by (unfold in_board; cbn [fst snd]; lia).
  assert (Hne : (7, 2) ≠ (4, 5)) by discriminate.
  assert (Hline : diagonal_line (7, 2) (4, 5)) by reflexivity.
  exact (proj2 (clear_path_diagonal_spec _ _ _ Hwf Hfrom Hto Hne Hline) Hn).
Defined.

(** X13. For a pawn moving along its column on a well-shaped board,
    [clear_path_pawn] does not raise, and it answers [True] exactly when
    every square from the one after the origin up to and including the
    destination is empty. *)
Theorem clear_path_pawn_spec (b : Board) (sq_from sq_to : Square) :
  wf_board b -> in_board sq_from -> in_board sq_to ->
  sq_from.1 ≠ sq_to.1 ->
  ((∀ row, sq_to.1 <= row < sq_from.1 ∨ sq_from.1 < row <= sq_to.1 ->
           cell b (row, sq_from.2) = None) ->
   clear_path_pawn b sq_from sq_to = Ret VTrue)
  ∧ (¬ (∀ row, sq_to.1 <= row < sq_from.1 ∨ sq_from.1 < row <= sq_to.1 ->
               cell b (row, sq_from.2) = None) ->
     clear_path_pawn b sq_from sq_to = Ret VFalse).
Proof.
  intros Hwf Hfrom Hto Hne.
  destruct (clear_path_pawn_run b sq_from sq_to Hwf Hfrom Hto Hne)
    as (r & Hr & Hiff).
  rewrite Hr. destruct r.
  - split; [done|]. intros Hn. exfalso. apply Hn. by apply Hiff.
  - split; [|done]. intros He. apply Hiff in He. discriminate.
Qed.

Lemma clear_path_pawn_spec_witness :
  clear_path_pawn (board blocked_pawn_game) (6, 5) (4, 5) = Ret VFalse.
Proof.
  assert (Hwf : wf_board (board blocked_pawn_game))
    by (split; [reflexivity | vm_compute; repeat constructor]).
  assert (Hfrom : in_board (6, 5)) by (unfold in_board; cbn [fst snd]; lia).
  assert (Hto : in_board (4, 5)) by (unfold in_board; cbn [fst snd]; lia).
  assert (Hne : (6, 5).1 ≠ (4, 5).1) by discriminate.
  apply (proj2 (clear_path_pawn_spec _ _ _ Hwf Hfrom Hto Hne)).
  intros He. specialize (He 5). cbn [fst snd] in He.
  assert (H : 4 <= 5 < 6 ∨ 6 < 5 <= 4) by lia. specialize (He H).
  vm_compute in He. discriminate.
Defined.

Lemma validity_not_knight sq_from sq_to piece :
  is_Knight piece = false ->
  validity sq_from sq_to piece = valid_move sq_from sq_to piece.
Proof. unfold validity. by intros ->. Qed.

Lemma valid_move_no_pawn_capture sq_from sq_to piece g g1 :
  is_Pawn piece = false ->
  valid_move sq_from sq_to piece g ≠ (Ret PAWN_CAPTURE, g1).
Proof.
  intros Hp H. apply valid_move_pawn_capture_strong in H as [H _]. congruence.
Qed.

(** X14. An accepted rook move runs along a row or a column, and every square
    strictly between origin and destination was empty. *)
Theorem accepted_rook_move (g g' : Game) (a b : string)
    (sq_from sq_to : Square) (c : Color) :
  wf_game g ->
  make_move a b g = (Ret true, g') ->
  notation_to_board_pos a = Ret sq_from ->
  notation_to_board_pos b = Ret sq_to ->
  getitem2 (board g) sq_from = Ret (Some (Rook c)) ->
  straight_line sq_from sq_to ∧ straight_path_empty (board g) sq_from sq_to.
Proof.
  intros Hwf Hmove Ha Hb Hpiece.
  destruct (accepted_move_validity _ _ _ _ _ _ _ Hwf Hmove Ha Hb Hpiece)
    as (Hfrom & Hto & Hne & g1 & valid & Hval & _ & _ & _ & Hv).
  rewrite validity_not_knight in Hval by done.
  destruct Hv as [[-> _]|[-> _]];
    [|by apply valid_move_no_pawn_capture in Hval].
  apply valid_move_rook in Hval as (-> & Hline & Hpath).
  split; [done|].
  destruct (clear_path_straight_run _ _ _ Hwf Hfrom Hto Hne Hline)
    as (r & Hr & Hiff).
  rewrite Hpath in Hr. injection Hr as <-. exact (proj1 Hiff eq_refl).
Qed.

(** X15. An accepted bishop move runs along a diagonal, and every square
    strictly between origin and destination was empty. *)
Theorem accepted_bishop_move (g g' : Game) (a b : string)
    (sq_from sq_to : Square) (c : Color) :
  wf_game g ->
  make_move a b g = (Ret true, g') ->
  notation_to_board_pos a = Ret sq_from ->
  notation_to_board_pos b = Ret sq_to ->
  getitem2 (board g) sq_from = Ret (Some (Bishop c)) ->
  diagonal_line sq_from sq_to ∧ diagonal_path_empty (board g) sq_from sq_to.
Proof.
  intros Hwf Hmove Ha Hb Hpiece.
  destruct (accepted_move_validity _ _ _ _ _ _ _ Hwf Hmove Ha Hb Hpiece)
    as (Hfrom & Hto & Hne & g1 & valid & Hval & _ & _ & _ & Hv).
  rewrite validity_not_knight in Hval by done.
  destruct Hv as [[-> _]|[-> _]];
    [|by apply valid_move_no_pawn_capture in Hval].
  apply valid_move_bishop in Hval as (-> & Hline & Hpath).
  split; [done|].
  destruct (clear_path_diagonal_run _ _ _ Hwf Hfrom Hto Hne Hline)
    as (r & Hr & Hiff).
  rewrite Hpath in Hr. injection Hr as <-. exact (proj1 Hiff eq_refl).
Qed.

(** X16. An accepted queen move runs along a row, a column or a diagonal, and
    every square strictly between origin and destination was empty. *)
Theorem accepted_queen_move (g g' : Game) (a b : string)
    (sq_from sq_to : Square) (c : Color) :
  wf_game g ->
  make_move a b g = (Ret true, g') ->
  notation_to_board_pos a = Ret sq_from ->
  notation_to_board_pos b = Ret sq_to ->
  getitem2 (board g) sq_from = Ret (Some (Queen c)) ->
  (straight_line sq_from sq_to ∧ straight_path_empty (board g) sq_from sq_to)
  ∨ (diagonal_line sq_from sq_to ∧ diagonal_path_empty (board g) sq_from sq_to).
Proof.
  intros Hwf Hmove Ha Hb Hpiece.
  destruct (accepted_move_validity _ _ _ _ _ _ _ Hwf Hmove Ha Hb Hpiece)
    as (Hfrom & Hto & Hne & g1 & valid & Hval & _ & _ & _ & Hv).
  rewrite validity_not_knight in Hval by done.
  destruct Hv as [[-> _]|[-> _]];
    [|by apply valid_move_no_pawn_capture in Hval].
  apply valid_move_queen in Hval as (-> & [[Hline Hpath]|[Hline Hpath]]).
  - left. split; [done|].
    destruct (clear_path_straight_run _ _ _ Hwf Hfrom Hto Hne Hline)
      as (r & Hr & Hiff).
    rewrite Hpath in Hr. injection Hr as <-. exact (proj1 Hiff eq_refl).
  - right. split; [done|].
    destruct (clear_path_diagonal_run _ _ _ Hwf Hfrom Hto Hne Hline)
      as (r & Hr & Hiff).
    rewrite Hpath in Hr. injection Hr as <-. exact (proj1 Hiff eq_refl).
Qed.

(** X17. An accepted king move lands on an empty square, one step away: up,
    down or diagonally, or one column to the left in the same row. No
    accepted king move goes to the right within its row. *)
Theorem accepted_king_move (g g' : Game) (a b : string)
    (sq_from sq_to : Square) (c : Color) :
  wf_game g ->
  make_move a b g = (Ret true, g') ->
  notation_to_board_pos a = Ret sq_from ->
  notation_to_board_pos b = Ret sq_to ->
  getitem2 (board g) sq_from = Ret (Some (King c)) ->
  getitem2 (board g) sq_to = Ret None
  ∧ ((sq_from.1 = sq_to.1 ∧ sq_to.2 = sq_from.2 - 1)
     ∨ (Z.abs (sq_from.1 - sq_to.1) = 1 ∧ Z.abs (sq_from.2 - sq_to.2) <= 1)).
Proof.
  intros Hwf Hmove Ha Hb Hpiece.
  destruct (accepted_move_validity _ _ _ _ _ _ _ Hwf Hmove Ha Hb Hpiece)
    as (Hfrom & Hto & Hne & g1 & valid & Hval & _ & _ & _ & Hv).
  rewrite validity_not_knight in Hval by done.
  destruct Hv as [[-> Hempty]|[-> _]];
    [|by apply valid_move_no_pawn_capture in Hval].
  apply valid_move_king in Hval as (-> & Hgeo).
  split; [|done]. rewrite getitem2_wf by done. f_equal. by apply Hempty.
Qed.

(** X18. An accepted pawn move goes forward for its colour: either straight
    onto an empty square, by one row or, only for a pawn that still has
    its first-turn attribute, by two rows over an empty square, after
    which the attribute is cleared; or one step diagonally onto a piece
    of the other colour. *)
Theorem accepted_pawn_move (g g' : Game) (a b : string)
    (sq_from sq_to : Square) (c : Color) (f : bool) :
  wf_game g ->
  make_move a b g = (Ret true, g') ->
  notation_to_board_pos a = Ret sq_from ->
  notation_to_board_pos b = Ret sq_to ->
  getitem2 (board g) sq_from = Ret (Some (Pawn c f)) ->
  ((c = WHITE ∧ sq_to.1 < sq_from.1) ∨ (c = BLACK ∧ sq_from.1 < sq_to.1))
  ∧ ((sq_from.2 = sq_to.2
      ∧ getitem2 (board g) sq_to = Ret None
      ∧ (Z.abs (sq_from.1 - sq_to.1) = 1
         ∨ (Z.abs (sq_from.1 - sq_to.1) = 2 ∧ f = true
            ∧ (∀ row, between sq_from.1 sq_to.1 row ->
                      cell (board g) (row, sq_from.2) = None)
            ∧ getitem2 (board g') sq_to = Ret (Some (Pawn c false)))))
     ∨ (Z.abs (sq_from.2 - sq_to.2) = 1
        ∧ Z.abs (sq_from.1 - sq_to.1) = 1
        ∧ ∃ t, getitem2 (board g) sq_to = Ret (Some t) ∧ get_color t ≠ c)).
Proof.
  intros Hwf Hmove Ha Hb Hpiece.
  pose proof (preserves_wf_make_move a b g _ _ Hwf Hmove) as Hwf'.
  destruct (accepted_move_validity _ _ _ _ _ _ _ Hwf Hmove Ha Hb Hpiece)
    as (Hfrom & Hto & Hne & g1 & valid & Hval & Hwf1 & Hframe & Hupd & Hv).
  rewrite validity_not_knight in Hval by done.
  destruct Hv as [[-> _]|[-> (t & Ht & Hcol)]].
  - apply valid_move_pawn_advance in Hval as (Hcol & Hfwd & Hdist & Hpath).
    assert (Hrows : sq_from.1 ≠ sq_to.1) by lia.
    destruct (clear_path_pawn_run _ _ _ Hwf1 Hfrom Hto Hrows) as (r & Hr & Hiff).
    rewrite Hpath in Hr. injection Hr as Hr. symmetry in Hr.
    apply of_bool_true in Hr as ->.
    assert (Hclear : ∀ row, sq_to.1 <= row < sq_from.1 ∨ sq_from.1 < row <= sq_to.1 ->
                            cell (board g) (row, sq_from.2) = None).
    { intros row Hrow. rewrite <- Hframe.
      - by apply Hiff.
      - destruct Hfrom, Hto. split; cbn [fst snd]; lia.
      - destruct sq_from. cbn [fst snd] in *. intros [= ->]. lia. }
    assert (Hdest : cell (board g) sq_to = None).
    { replace sq_to with (sq_to.1, sq_from.2)
        by (destruct sq_to; cbn [fst snd] in *; congruence).
      apply Hclear. lia. }
    split; [done|]. left. split_and!; auto.
    { rewrite getitem2_wf by done. by f_equal. }
    destruct Hdist as [Hd|(Hd & -> & ->)]; [by left|right].
    split_and!; auto.
    + intros row Hrow. apply Hclear. unfold between in Hrow. lia.
    + rewrite Hdest in Hupd. cbn [is_occupied] in Hupd.
      rewrite update_board_move_run in Hupd by done. injection Hupd as <-.
      cbn [board with_board with_player_turn].
      rewrite getitem2_wf; [|by do 3 apply wf_store | done]. f_equal.
      rewrite cell_store_ne by auto.
      rewrite cell_store_eq; [|by apply wf_store | done].
      by apply cell_store_eq.
  - apply valid_move_pawn_takes in Hval as (-> & Hdc & Hfwd).
    split; [destruct Hfwd as [[-> ->]|[-> ->]]; [left|right]; split; auto; lia|].
    right. split_and!; auto.
    + destruct Hfwd as [[_ ->]|[_ ->]]; lia.
    + exists t. split; [rewrite getitem2_wf by done; by f_equal|].
      cbn [get_color] in Hcol. intros <-. by destruct (get_color t).
Qed.

Lemma wf_game_play moves : wf_game (play moves new_game).
Proof. apply reachable_wf, reachable_play, reachable_new. Qed.

Lemma accepted_rook_move_witness :
  (make_move "a1" "a3" rook_lift_game).1 = Ret true
  ∧ straight_line (7, 0) (5, 0)
  ∧ straight_path_empty (board rook_lift_game) (7, 0) (5, 0).
Proof.
  split; [vm_compute; reflexivity|].
  apply (accepted_rook_move rook_lift_game (make_move "a1" "a3" rook_lift_game).2
           "a1" "a3" (7, 0) (5, 0) WHITE);
    [apply wf_game_play | vm_compute; reflexivity | reflexivity | reflexivity
     | vm_compute; reflexivity].
Defined.

Lemma accepted_bishop_move_witness :
  (make_move "f1" "c4" open_game).1 = Ret true
  ∧ diagonal_line (7, 5) (4, 2)
  ∧ diagonal_path_empty (board open_game) (7, 5) (4, 2).
Proof.
  split; [vm_compute; reflexivity|].
  apply (accepted_bishop_move open_game (make_move "f1" "c4" open_game).2
           "f1" "c4" (7, 5) (4, 2) WHITE);
    [apply wf_game_play | vm_compute; reflexivity | reflexivity | reflexivity
     | vm_compute; reflexivity].
Defined.

Lemma accepted_queen_move_witness :
  (make_move "d1" "h5" open_game).1 = Ret true
  ∧ ((straight_line (7, 3) (3, 7)
      ∧ straight_path_empty (board open_game) (7, 3) (3, 7))
     ∨ (diagonal_line (7, 3) (3, 7)
        ∧ diagonal_path_empty (board open_game) (7, 3) (3, 7))).
Proof.
  split; [vm_compute; reflexivity|].
  apply (accepted_queen_move open_game (make_move "d1" "h5" open_game).2
           "d1" "h5" (7, 3) (3, 7) WHITE);
    [apply wf_game_play | vm_compute; reflexivity | reflexivity | reflexivity
     | vm_compute; reflexivity].
Defined.

Lemma accepted_king_move_witness :
  (make_move "e3" "d3" king_walk_game).1 = Ret true
  ∧ getitem2 (board king_walk_game) (5, 3) = Ret None.
Proof.
  split; [vm_compute; reflexivity|].
  apply (accepted_king_move king_walk_game (make_move "e3" "d3" king_walk_game).2
           "e3" "d3" (5, 4) (5, 3) WHITE);
    [apply wf_game_play | vm_compute; reflexivity | reflexivity | reflexivity
     | vm_compute; reflexivity].
Defined.

Lemma accepted_pawn_move_witness :
  (make_move "e2" "e4" new_game).1 = Ret true
  ∧ ((WHITE = WHITE ∧ (4, 4).1 < (6, 4).1) ∨ (WHITE = BLACK ∧ (6, 4).1 < (4, 4).1)).
Proof.
  split; [vm_compute; reflexivity|].
  apply (accepted_pawn_move new_game (make_move "e2" "e4" new_game).2
           "e2" "e4" (6, 4) (4, 4) WHITE true);
    [apply (wf_game_play []) | vm_compute; reflexivity | reflexivity | reflexivity
     | vm_compute; reflexivity].
Defined.

(** ** Calls that cannot raise *)

Lemma pawn_capture_total b sq_from sq_to color :
  wf_board b -> in_board sq_from -> in_board sq_to ->
  Z.abs (sq_from.1 - sq_to.1) = 1 -> Z.abs (sq_from.2 - sq_to.2) = 1 ->
  ∃ r, pawn_capture b sq_from sq_to color = Ret r.
Proof.
  destruct sq_from as [fr fc], sq_to as [tr tc].
  intros Hwf Hfrom Hto Hr Hc. cbn [fst snd] in *.
  unfold pawn_capture. cbn [fst snd].
  rewrite (getitem2_wf b (tr, tc)) by done.
  destruct (fr - tr >? 0) eqn:E1; rewrite Z.gtb_ltb in E1;
    [apply Z.ltb_lt in E1 | apply Z.ltb_ge in E1];
  destruct (fc - tc >? 0) eqn:E2; rewrite Z.gtb_ltb in E2;
    [apply Z.ltb_lt in E2 | apply Z.ltb_ge in E2 | apply Z.ltb_lt in E2
     | apply Z.ltb_ge in E2];
  destruct (fr - tr <? 0) eqn:E3;
    try apply Z.ltb_lt in E3; try apply Z.ltb_ge in E3;
  destruct (fc - tc <? 0) eqn:E4;
    try apply Z.ltb_lt in E4; try apply Z.ltb_ge in E4;
  try lia; cbn [andb];
  match goal with
  | |- context [getitem2 b (?r, ?c)] =>
      replace (r, c) with (tr, tc) by (f_equal; lia);
      rewrite (getitem2_wf b (tr, tc)) by done
  end;
  cbn [res_bind]; destruct (cell b (tr, tc)) as [t|]; cbn [is_occupied res_bind];
  try destruct (color_eqb color (get_color t)); eauto.
Qed.

Lemma is_capture_total b sq_from sq_to piece :
  wf_board b -> in_board sq_to -> ∃ r, is_capture b sq_from sq_to piece = Ret r.
Proof.
  intros Hwf Hto. unfold is_capture. destruct sq_to as [r c]. cbn [fst snd].
  rewrite getitem2_wf by done. cbn [res_bind].
  destruct (cell b (r, c)); repeat case_match; eauto.
Qed.

Lemma direction_not_pawn_cases sq_from sq_to piece :
  is_Pawn piece = false ->
  (move_direction sq_from sq_to piece = STRAIGHT ∧ straight_line sq_from sq_to)
  ∨ (move_direction sq_from sq_to piece = DIAGONAL ∧ diagonal_line sq_from sq_to)
  ∨ move_direction sq_from sq_to piece = NoDirection.
Proof.
  intros Hp. rewrite move_direction_not_pawn by done.
  destruct (_ || _) eqn:Es; [left; split; [done | by apply straight_line_b]|].
  destruct (Z.abs (sq_from.1 - sq_to.1) =? Z.abs (sq_from.2 - sq_to.2)) eqn:Ed;
    [|right; right; done].
  right. left. apply Z.eqb_eq in Ed. split; [done | exact Ed].
Qed.

(** Between two different squares of a well-shaped board [valid_move]
    returns a verdict: no index it computes leaves the board. *)
Lemma valid_move_total sq_from sq_to piece g :
  wf_game g -> in_board sq_from -> in_board sq_to -> sq_from ≠ sq_to ->
  ∃ v g1, valid_move sq_from sq_to piece g = (Ret v, g1).
Proof.
  intros Hwf Hfrom Hto Hne.
  destruct (is_Pawn piece) eqn:Epawn.
  - destruct piece as [| | | | |c f]; try discriminate.
    unfold valid_move.
    destruct (direction_eqb _ NoDirection) eqn:Ed; [eexists _, _; reflexivity|].
    cbn [piece_move].
    destruct (Pawn_is_valid_move sq_from c f
                (move_direction sq_from sq_to (Pawn c f))
                (if direction_eqb (move_direction sq_from sq_to (Pawn c f)) STRAIGHT
                    && (sq_from.1 =? sq_to.1)
                 then sq_from.2 - sq_to.2 else Z.abs (sq_from.1 - sq_to.1)) g)
      as [[v|e] g2] eqn:Epm.
    2: { unfold Pawn_is_valid_move, bind, ret, set_is_first_turn, modify in Epm.
         repeat case_match; simplify_eq. }
    rewrite (bind_run _ _ _ _ _ Epm).
    assert (Hwf2 : wf_game g2).
    { assert (Hp : preserves wf_game
        (Pawn_is_valid_move sq_from c f (move_direction sq_from sq_to (Pawn c f))
           (if direction_eqb (move_direction sq_from sq_to (Pawn c f)) STRAIGHT
               && (sq_from.1 =? sq_to.1)
            then sq_from.2 - sq_to.2 else Z.abs (sq_from.1 - sq_to.1))))
        by (unfold Pawn_is_valid_move; pres).
      eapply Hp; eauto. }
    destruct v; try (eexists _, _; reflexivity).
    + apply Pawn_is_valid_move_true in Epm as [Hdir _].
      pose proof (move_direction_forward sq_from sq_to (Pawn c f)) as [Hw Hb].
      assert (Hrows : sq_from.1 ≠ sq_to.1).
      { destruct Hdir as [[_ Hd]|[_ Hd]]; [destruct (Hb Hd) | destruct (Hw Hd)]; lia. }
      destruct (clear_path_pawn_run _ _ _ Hwf2 Hfrom Hto Hrows) as (r & Hr & _).
      unfold bind, gets, lift, ret. cbn [is_Queen is_King is_Rook is_Bishop is_Pawn orb andb].
      rewrite Hr. eauto.
    + apply Pawn_is_valid_move_capture in Epm as (-> & _ & Hdir).
      pose proof (move_direction_diagonal sq_from sq_to (Pawn c f)) as [Hw Hb].
      assert (Hgeo : Z.abs (sq_from.1 - sq_to.1) = 1 ∧ Z.abs (sq_from.2 - sq_to.2) = 1).
      { destruct Hdir as [[_ Hd]|[_ Hd]]; [destruct (Hb Hd) | destruct (Hw Hd)]; lia. }
      destruct Hgeo as [Hr Hc].
      destruct (pawn_capture_total (board g) sq_from sq_to (get_color (Pawn c f))
                  Hwf Hfrom Hto Hr Hc) as (r & Hpc).
      unfold bind, gets, lift, ret. rewrite Hpc. destruct r; eauto.
  - unfold valid_move.
    destruct (direction_not_pawn_cases sq_from sq_to piece Epawn)
      as [[Hd Hline]|[[Hd Hline]| Hd]]; rewrite Hd; cbn [direction_eqb];
      [| |eexists _, _; reflexivity].
    + destruct (clear_path_straight_run (board g) sq_from sq_to Hwf Hfrom Hto Hne Hline)
        as (r & Hr & _).
      destruct piece; try discriminate;
        unfold piece_move, bind, gets, lift, ret; cbn; repeat case_match;
        simplify_eq; try congruence; eauto.
    + destruct (clear_path_diagonal_run (board g) sq_from sq_to Hwf Hfrom Hto Hne Hline)
        as (r & Hr & _).
      destruct piece; try discriminate;
        unfold piece_move, bind, gets, lift, ret; cbn; repeat case_match;
        simplify_eq; try congruence; eauto.
Qed.

(** X19. On a well-shaped board [make_move] raises nothing when each of its
    two arguments parses either to (-1, -1) or to a square of the board:
    it returns [True] or [False]. (What is left are the arguments whose
    rank digit is 0, and those on which the parser itself raises.) *)
Theorem make_move_does_not_raise (g : Game) (a b : string) (sq_from sq_to : Square) :
  wf_game g ->
  notation_to_board_pos a = Ret sq_from ->
  notation_to_board_pos b = Ret sq_to ->
  sq_from = (-1, -1) ∨ in_board sq_from ->
  sq_to = (-1, -1) ∨ in_board sq_to ->
  ∃ r g', make_move a b g = (Ret r, g').
Proof.
  intros Hwf Ha Hb Hfrom Hto. unfold make_move.
  rewrite (bind_run _ _ _ (game_state g) g) by reflexivity.
  destruct (game_state g); cbn [game_state_eqb negb];
    try (eexists _, _; reflexivity).
  rewrite (bind_run _ _ _ sq_from g) by (unfold lift; by rewrite Ha).
  rewrite (bind_run _ _ _ sq_to g) by (unfold lift; by rewrite Hb).
  destruct (sq_eqb sq_from (-1, -1)) eqn:E1; [eexists _, _; reflexivity|].
  destruct (sq_eqb sq_to (-1, -1)) eqn:E2; [eexists _, _; reflexivity|].
  cbn [orb]. apply sq_eqb_neq in E1, E2.
  destruct Hfrom as [?|Hfrom]; [done|]. destruct Hto as [?|Hto]; [done|].
  rewrite (bind_run _ _ _ _ _ (board_get_wf _ _ Hwf Hfrom)).
  destruct (cell (board g) sq_from) as [piece|]; [|eexists _, _; reflexivity].
  destruct (sq_eqb sq_from sq_to) eqn:E3; [eexists _, _; reflexivity|].
  apply sq_eqb_neq in E3.
  rewrite (bind_run _ _ _ (player_turn g) g) by reflexivity.
  destruct (negb (color_eqb (get_color piece) (player_turn g)));
    [eexists _, _; reflexivity|].
  fold (validity sq_from sq_to piece).
  assert (Hval : ∃ v g1, validity sq_from sq_to piece g = (Ret v, g1) ∧ wf_game g1).
  { unfold validity. destruct (is_Knight piece).
    - eexists _, _. split; [reflexivity | done].
    - destruct (valid_move_total sq_from sq_to piece g Hwf Hfrom Hto E3)
        as (v & g1 & Hv).
      exists v, g1. split; [done|]. eapply preserves_wf_valid_move; eauto. }
  destruct Hval as (v & g1 & Hv & Hwf1).
  rewrite (bind_run _ _ _ _ _ Hv).
  destruct v; try (eexists _, _; reflexivity).
  - rewrite (bind_run _ _ _ (board g1) g1) by reflexivity.
    destruct (is_capture_total (board g1) sq_from sq_to piece Hwf1 Hto) as (c & Hc).
    rewrite (bind_run _ _ _ c g1) by (unfold lift; by rewrite Hc).
    destruct c as [| |capture]; try (eexists _, _; reflexivity).
    destruct (update_board_total sq_from sq_to capture g1 Hwf1 Hfrom Hto)
      as (r & g' & Hrun & _). eauto.
  - destruct (update_board_total sq_from sq_to true g1 Hwf1 Hfrom Hto)
      as (r & g' & Hrun & _). eauto.
Qed.

Lemma make_move_does_not_raise_witness :
  ∃ r g', make_move "d1" "h5" open_game = (Ret r, g').
Proof.
  apply (make_move_does_not_raise open_game "d1" "h5" (7, 3) (3, 7));
    [apply wf_game_play | reflexivity | reflexivity
     | right; unfold in_board; cbn [fst snd]; lia
     | right; unfold in_board; cbn [fst snd]; lia].
Defined.

(** ** Removing the pawns *)

Lemma enumerate_squares_spec b sq :
  wf_board b -> In sq (enumerate_squares b) <-> in_board sq.
Proof.
  intros Hwf. unfold enumerate_squares.
  rewrite <- list_elem_of_In, list_elem_of_join. split.
  - intros (l & Hsq & Hl).
    apply elem_of_lookup_imap in Hl as (i & row & -> & Hrow).
    apply elem_of_lookup_imap in Hsq as (j & x & -> & Hx).
    pose proof (wf_board_lookup _ _ _ Hwf Hrow) as Hlen.
    apply lookup_lt_Some in Hrow, Hx. destruct Hwf as [Hb _].
    split; cbn [fst snd]; lia.
  - intros [Hr Hc].
    destruct (wf_board_row b sq.1 Hwf Hr) as (row & Hrow & Hlen).
    destruct (lookup_lt_is_Some_2 row (Z.to_nat sq.2)) as [x Hx]; [lia|].
    remember (Z.to_nat sq.1) as i eqn:Hi. remember (Z.to_nat sq.2) as j eqn:Hj.
    assert (Hsq : sq = (Z.of_nat i, Z.of_nat j))
      by (destruct sq; cbn [fst snd] in *; subst; f_equal; lia).
    rewrite Hsq.
    exists (imap (fun col_index (_ : option Piece) =>
                    (Z.of_nat i, Z.of_nat col_index)) row).
    split.
    + apply (elem_of_lookup_imap_2
               (fun col_index (_ : option Piece) => (Z.of_nat i, Z.of_nat col_index))
               _ _ _ Hx).
    + apply (elem_of_lookup_imap_2
               (fun row_index (row : list (option Piece)) =>
                  imap (fun col_index (_ : option Piece) =>
                          (Z.of_nat row_index, Z.of_nat col_index)) row)
               _ _ _ Hrow).
Qed.

Lemma rapture_loop_run test l g :
  wf_game g -> Forall in_board l ->
  ∃ g', rapture_loop test l g = (Ret tt, g')
    ∧ wf_game g'
    ∧ game_state g' = game_state g
    ∧ player_turn g' = player_turn g
    ∧ king_status g' = king_status g
    ∧ (∀ sq p, in_board sq -> In sq l -> cell (board g) sq = Some p ->
               test p = true -> cell (board g') sq = None)
    ∧ (∀ sq p, in_board sq -> cell (board g) sq = Some p -> test p = false ->
               cell (board g') sq = Some p)
    ∧ (∀ sq, in_board sq -> cell (board g) sq = None -> cell (board g') sq = None).
Proof.
  revert g. induction l as [|item rest IH]; intros g Hwf Hl.
  { exists g. split_and!; auto. intros sq p _ []. }
  apply Forall_cons in Hl as [Hitem Hrest].
  cbn [rapture_loop].
  rewrite (bind_run _ _ _ _ _ (board_get_wf _ _ Hwf Hitem)).
  destruct (cell (board g) item) as [q|] eqn:Ecell.
  2: { rewrite (bind_run _ _ _ tt g) by reflexivity.
       destruct (IH g Hwf Hrest) as (g' & Hrun & Hwf' & Hs & Ht & Hk & H1 & H2 & H3).
       exists g'. split_and!; auto.
       intros sq p Hsq [<-|Hin] Hc Htest; [congruence | eauto]. }
  destruct (test q) eqn:Etest.
  - rewrite (bind_run _ _ _ _ _ (board_set_wf _ _ _ Hwf Hitem)).
    set (g1 := with_board g (store (board g) item None)).
    assert (Hwf1 : wf_game g1) by (by apply wf_store).
    destruct (IH g1 Hwf1 Hrest) as (g' & Hrun & Hwf' & Hs & Ht & Hk & H1 & H2 & H3).
    unfold g1 in *. cbn [board with_board] in H1, H2, H3.
    exists g'. split_and!; auto.
    + intros sq p Hsq Hin Hc Htest. destruct (decide (item = sq)) as [->|Hne].
      * apply H3; [done|]. by apply cell_store_eq.
      * destruct Hin as [?|Hin]; [done|].
        apply (H1 sq p); auto. by rewrite cell_store_ne.
    + intros sq p Hsq Hc Htest.
      assert (Hne : item ≠ sq) by (intros ->; congruence).
      apply H2; auto. by rewrite cell_store_ne.
    + intros sq Hsq Hc.
      assert (Hne : item ≠ sq) by (intros ->; congruence).
      apply H3; auto. by rewrite cell_store_ne.
  - rewrite (bind_run _ _ _ tt g) by reflexivity.
    destruct (IH g Hwf Hrest) as (g' & Hrun & Hwf' & Hs & Ht & Hk & H1 & H2 & H3).
    exists g'. split_and!; auto.
    intros sq p Hsq [<-|Hin] Hc Htest; [congruence | eauto].
Qed.

(** X20. On a well-shaped board [rapture_pawns] does not raise; it empties
    exactly the squares holding a pawn of the chosen colour (black for
    "b", white for "w", every pawn for any other argument or none),
    leaves every other square as it was, and touches neither the turn,
    the game state nor the king flags. *)
Theorem rapture_pawns_spec (color : option string) (g : Game) :
  wf_game g ->
  ∃ g', rapture_pawns color g = (Ret tt, g')
    ∧ game_state g' = game_state g
    ∧ player_turn g' = player_turn g
    ∧ king_status g' = king_status g
    ∧ ∀ sq, in_board sq ->
            cell (board g') sq
            = match cell (board g) sq with
              | Some p => if rapture_test color p then None else Some p
              | None => None
              end.
Proof.
  intros Hwf. unfold rapture_pawns.
  rewrite (bind_run _ _ _ (board g) g) by reflexivity.
  assert (Hl : Forall in_board (enumerate_squares (board g))).
  { apply List.Forall_forall. intros sq. by apply enumerate_squares_spec. }
  destruct (rapture_loop_run (rapture_test color) _ g Hwf Hl)
    as (g' & Hrun & _ & Hs & Ht & Hk & H1 & H2 & H3).
  exists g'. split_and!; auto.
  intros sq Hsq. destruct (cell (board g) sq) as [p|] eqn:Ecell; [|by apply H3].
  destruct (rapture_test color p) eqn:Etest.
  - apply (H1 sq p); auto. by apply enumerate_squares_spec.
  - by apply H2.
Qed.

Lemma rapture_pawns_spec_witness :
  ∃ g', rapture_pawns (Some "b"%string) new_game = (Ret tt, g')
    ∧ cell (board g') (1, 4) = None
    ∧ cell (board g') (6, 4) = Some (Pawn WHITE true)
    ∧ cell (board g') (0, 4) = Some (King BLACK).
Proof.
  destruct (rapture_pawns_spec (Some "b"%string) new_game (wf_game_play []))
    as (g' & Hrun & _ & _ & _ & Hcells).
  exists g'. split_and!; [exact Hrun | | |].
  - rewrite Hcells by (unfold in_board; cbn [fst snd]; lia). reflexivity.
  - rewrite Hcells by (unfold in_board; cbn [fst snd]; lia). reflexivity.
  - rewrite Hcells by (unfold in_board; cbn [fst snd]; lia). reflexivity.
Defined.

(** ** The shape of the board and the reach of a capture *)

(** X21. Whatever a call of [make_move] returns or raises, the board is still
    eight rows of eight cells afterwards, so every square of the board
    can be read. *)
Theorem make_move_keeps_board_shape (g : Game) (a b : string) (sq : Square) :
  wf_game g -> in_board sq ->
  wf_game (make_move a b g).2
  ∧ ∃ x, getitem2 (board (make_move a b g).2) sq = Ret x.
Proof.
  intros Hwf Hsq.
  destruct (make_move a b g) as [r g'] eqn:E. cbn [snd].
  assert (Hwf' : wf_game g') by (eapply preserves_wf_make_move; eauto).
  split; [done|]. exists (cell (board g') sq). by apply getitem2_wf.
Qed.

Lemma make_move_keeps_board_shape_witness :
  wf_game (make_move "a0" "a1" new_game).2
  ∧ ∃ x, getitem2 (board (make_move "a0" "a1" new_game).2) (7, 7) = Ret x.
Proof.
  apply (make_move_keeps_board_shape new_game "a0" "a1" (7, 7)).
  - apply (wf_game_play []).
  - unfold in_board. cbn [fst snd]. lia.
Defined.

(** X22. An accepted capture empties every square of the 3x3 block around the
    destination that did not hold a pawn, and leaves every square outside
    the block, the origin excepted, as it was. *)
Theorem capture_blast_effect (g g' : Game) (a b : string)
    (sq_from sq_to : Square) (t : Piece) :
  wf_game g ->
  make_move a b g = (Ret true, g') ->
  notation_to_board_pos a = Ret sq_from ->
  notation_to_board_pos b = Ret sq_to ->
  getitem2 (board g) sq_to = Ret (Some t) ->
  (∀ sq, in_board sq -> in_blast sq_to sq ->
         cell_is_Pawn (cell (board g) sq) = false ->
         cell (board g') sq = None)
  ∧ (∀ sq, in_board sq -> sq ≠ sq_from -> ¬ in_blast sq_to sq ->
           cell (board g') sq = cell (board g) sq).
Proof.
  intros Hwf Hmove Ha Hb Htarget.
  apply make_move_accepted in Hmove
    as (f & t' & piece & g1 & capture & x & Hst & Ha' & Hb' & Hf1 & Ht1 & Hne
        & Hpiece & Hcolor & Heff & Hx & Hocc & Hupd).
  rewrite Ha in Ha'. injection Ha' as <-.
  rewrite Hb in Hb'. injection Hb' as <-.
  assert (Hfrom : in_board sq_from) by (eapply parsed_square_in_board; eauto).
  assert (Hto : in_board sq_to) by (eapply parsed_square_in_board; eauto).
  pose proof (getitem2_cell _ _ _ Hwf Hfrom Hpiece) as Hcp.
  destruct (flag_effect_facts _ _ _ _ Hwf Hfrom Hcp Heff)
    as (Hwf1 & _ & _ & _ & (p' & Hp' & Hsame) & Hframe).
  assert (x = Some t) as ->.
  { apply (getitem2_cell _ _ _ Hwf1 Hto) in Hx.
    rewrite Hframe in Hx by auto.
    apply (getitem2_cell _ _ _ Hwf Hto) in Htarget. congruence. }
  simpl in Hocc. subst capture.
  apply update_board_capture_applied in Hupd
    as (Hcf & _ & _ & Hblast & Hout & _); [|done..].
  split.
  - intros sq Hsq Hb' Hnp. destruct (decide (sq = sq_from)) as [->|Hn]; [done|].
    apply Hblast; auto. by rewrite Hframe.
  - intros sq Hsq Hn Hnb. rewrite Hout by auto. by apply Hframe.
Qed.

Lemma capture_blast_effect_witness :
  (make_move "g5" "f7" (play [("g1", "f3"); ("a7", "a6"); ("f3", "g5"); ("a6", "a5")]%string
                          new_game)).1 = Ret true
  ∧ cell (board won_game) (0, 4) = None
  ∧ cell (board won_game) (0, 3) = Some (Queen BLACK).
Proof.
  set (g := play [("g1", "f3"); ("a7", "a6"); ("f3", "g5"); ("a6", "a5")]%string
              new_game).
  assert (Hmove : make_move "g5" "f7" g = (Ret true, won_game))
    by (vm_compute; reflexivity).
  destruct (capture_blast_effect g won_game "g5" "f7" (3, 6) (1, 5) (Pawn BLACK true))
    as [Hin Hout];
    [apply wf_game_play | exact Hmove | reflexivity | reflexivity
     | vm_compute; reflexivity |].
  split_and!.
  - by rewrite Hmove.
  - apply Hin; [unfold in_board | unfold in_blast | vm_compute; reflexivity];
      cbn [fst snd]; lia.
  - rewrite Hout; [vm_compute; reflexivity | unfold in_board; cbn [fst snd]; lia
                   | discriminate | unfold in_blast; cbn [fst snd]; lia].
Defined.
